(** * solarosc: stochastically excited damped modes

    A shallow embedding of [solarosc] from
    [src/asteroseismology/solarosc.py] and the properties of its
    parameter derivation, warm-up, kick schedule and sampling pass.

    The program is embedded twice.
    - In exact arithmetic: Python floats and numpy [float64] entries
      are real numbers ([R]).  Where the IEEE computation would leave
      the finite reals (division by zero gives [inf], the square root
      of a negative number gives [nan]) this model stops with
      [NonFinite].  It carries the properties that do not lean on the
      exactness of a sum or of a quotient.
    - On IEEE doubles ([Module Binary64]): every float is a binary64
      number and every operation is rounded.  It carries what depends
      on rounding: the warm-up count, the kick clock, the exit of the
      pending-kick loop, and the errors Python raises on [inf] and
      [nan].

    Modelling conventions, common to both.
    - A one-dimensional [ndarray] is a list; a value that is either
      a Python float or an array (as [amplsin] and [amplcos] are) is a
      [pyval].
    - Python exceptions are the [Raise] outcomes.
    - The process-wide numpy random generator is an explicit state of
      an arbitrary type [G], with one function drawing a standard
      normal deviate and one drawing a uniform deviate of [[0,1)].
    - The [while] loop takes fuel; running out of it is [OutOfFuel].
    - The [print] calls are not modelled. *)

From Stdlib Require Import Reals List ZArith Lia Lra Psatz Bool PeanoNat.
From Stdlib Require Floats.
Import ListNotations.

Open Scope R_scope.

(** ** Outcomes of a Python computation *)

Inductive exn : Set :=
  ValueError | IndexError | TypeError | OverflowError.

Inductive outcome (A : Type) : Type :=
| Ok (a : A)
| Raise (e : exn)
| NonFinite
| OutOfFuel.

Arguments Ok {A} a.
Arguments Raise {A} e.
Arguments NonFinite {A}.
Arguments OutOfFuel {A}.

Definition bind {A B : Type} (c : outcome A) (k : A -> outcome B) : outcome B :=
  match c with
  | Ok a => k a
  | Raise e => Raise e
  | NonFinite => NonFinite
  | OutOfFuel => OutOfFuel
  end.

Notation "x <- c ;; k" := (bind c (fun x => k))
  (at level 61, c at next level, right associativity).
Notation "' pat <- c ;; k" := (bind c (fun x => match x with pat => k end))
  (at level 61, pat pattern, c at next level, right associativity).

(** ** Python and numpy primitives *)

(** A Python float or a one-dimensional array. *)
Inductive pyval : Type :=
| PyFloat (x : R)
| NdArray (l : list R).

(** [l[i]] on an array. *)
Definition getitem (l : list R) (i : nat) : outcome R :=
  match nth_error l i with
  | Some x => Ok x
  | None => Raise IndexError
  end.

Fixpoint list_set (l : list R) (i : nat) (v : R) : list R :=
  match l, i with
  | [], _ => []
  | _ :: t, O => v :: t
  | h :: t, S i' => h :: list_set t i' v
  end.

(** [l[i] = v] on an array. *)
Definition setitem (l : list R) (i : nat) (v : R) : outcome (list R) :=
  if (i <? length l)%nat then Ok (list_set l i v) else Raise IndexError.

(** [a[i]] where [a] may still be the float it was initialised to. *)
Definition py_getitem (a : pyval) (i : nat) : outcome R :=
  match a with
  | PyFloat _ => Raise TypeError
  | NdArray l => getitem l i
  end.

Definition py_setitem (a : pyval) (i : nat) (v : R) : outcome pyval :=
  match a with
  | PyFloat _ => Raise TypeError
  | NdArray l => l' <- setitem l i v ;; Ok (NdArray l')
  end.

(** The builtins [max] and [min] on a sequence: the first element is the
    running extremum, replaced by every strictly better later element. *)
Definition py_max (l : list R) : outcome R :=
  match l with
  | [] => Raise ValueError
  | x :: xs => Ok (fold_left (fun m y => if Rlt_dec m y then y else m) xs x)
  end.

Definition py_min (l : list R) : outcome R :=
  match l with
  | [] => Raise ValueError
  | x :: xs => Ok (fold_left (fun m y => if Rlt_dec y m then y else m) xs x)
  end.

(** Division of numpy floats: a zero divisor gives an infinity or a NaN
    (and a warning), never an exception.  The exact model stops there;
    what the code does with the infinity is in [Binary64]. *)
Definition fdiv (x y : R) : outcome R :=
  if Req_dec_T y 0 then NonFinite else Ok (x / y).

(** [np.sqrt] on an array. *)
Fixpoint np_sqrt (l : list R) : outcome (list R) :=
  match l with
  | [] => Ok []
  | x :: t =>
      if Rlt_dec x 0 then NonFinite
      else t' <- np_sqrt t ;; Ok (sqrt x :: t')
  end.

Fixpoint map2 {A : Type} (f : R -> R -> A) (xs ys : list R) : list A :=
  match xs, ys with
  | x :: xs', y :: ys' => f x y :: map2 f xs' ys'
  | _, _ => []
  end.

(** numpy broadcasting of two one-dimensional arrays. *)
Definition broadcast {A : Type} (f : R -> R -> A) (xs ys : list R)
  : outcome (list A) :=
  if (length xs =? length ys)%nat then Ok (map2 f xs ys)
  else match xs, ys with
       | [x], _ => Ok (map (f x) ys)
       | _, [y] => Ok (map (fun x => f x y) xs)
       | _, _ => Raise ValueError
       end.

(** An arithmetic operator on floats and arrays. *)
Definition np_binop (f : R -> R -> R) (a b : pyval) : outcome pyval :=
  match a, b with
  | PyFloat x, PyFloat y => Ok (PyFloat (f x y))
  | PyFloat x, NdArray ys => Ok (NdArray (map (f x) ys))
  | NdArray xs, PyFloat y => Ok (NdArray (map (fun x => f x y) xs))
  | NdArray xs, NdArray ys => l <- broadcast f xs ys ;; Ok (NdArray l)
  end.

(** ** The random generator *)

Section Solarosc.

Variable G : Type.
(** One standard normal deviate, and the generator after the draw. *)
Variable gauss : G -> R * G.
(** One uniform deviate of [[0,1)], and the generator after the draw. *)
Variable unif : G -> R * G.

(** [normal(loc, scale)] on floats: [loc + scale * z]; a negative scale
    is rejected. *)
Definition normal (loc scale : R) (g : G) : outcome (R * G) :=
  if Rlt_dec scale 0 then Raise ValueError
  else let (z, g') := gauss g in Ok (loc + scale * z, g').

Fixpoint normal_draws (ps : list (R * R)) (g : G) : list R * G :=
  match ps with
  | [] => ([], g)
  | (loc, scale) :: ps' =>
      let (z, g1) := gauss g in
      let (rest, g2) := normal_draws ps' g1 in
      (loc + scale * z :: rest, g2)
  end.

(** [normal(loc, scale)] on arrays: the scales are checked, the two
    arrays are broadcast, and one deviate is drawn per entry, in order. *)
Definition normal_vec (loc scale : list R) (g : G) : outcome (list R * G) :=
  if existsb (fun s => if Rlt_dec s 0 then true else false) scale
  then Raise ValueError
  else ps <- broadcast pair loc scale ;; Ok (normal_draws ps g).

(** [uniform(low, high, n)]: [n] draws of [low + (high - low) * u]. *)
Fixpoint uniform (low high : R) (n : nat) (g : G) : list R * G :=
  match n with
  | O => ([], g)
  | S n' =>
      let (u, g1) := unif g in
      let (rest, g2) := uniform low high n' g1 in
      (low + (high - low) * u :: rest, g2)
  end.

(** ** Parameter derivation (lines 86 and 97) *)

(** [kicktimestep = (1.0 / max(eta)) / 100.0] *)
Definition kicktimestep (eta : list R) : outcome R :=
  m <- py_max eta ;;
  q <- fdiv 1 m ;;
  fdiv q 100.

(** [kick_amplitude = ampl * np.sqrt(kicktimestep * eta)] *)
Definition kick_amplitude (ampl eta : list R) (kts : R) : outcome (list R) :=
  r <- np_sqrt (map (fun e => kts * e) eta) ;;
  broadcast Rmult ampl r.

(** ** Warm-up (lines 104 to 112) *)

(** [damp = np.exp(-eta * kicktimestep)] *)
Definition warm_damp (eta : list R) (kts : R) : list R :=
  map (fun e => exp (- e * kts)) eta.

(** [Nwarmup = min(20000, int(floor(1.0 / min(eta) / kicktimestep)))],
    the floor of the exact quotient; the code floors the rounded one
    ([Binary64.Nwarmup]). *)
Definition Nwarmup (eta : list R) (kts : R) : outcome Z :=
  m <- py_min eta ;;
  q <- fdiv 1 m ;;
  r <- fdiv q kts ;;
  Ok (Z.min 20000 (Zfloor r)).

(** [a = damp * a + normal(np.zeros(Nmode), kick_amplitude)] *)
Definition warm_update (Nmode : nat) (damp ka : list R) (a : pyval) (g : G)
  : outcome (pyval * G) :=
  p <- np_binop Rmult (NdArray damp) a ;;
  '(n, g') <- normal_vec (repeat 0 Nmode) ka g ;;
  a' <- np_binop Rplus p (NdArray n) ;;
  Ok (a', g').

(** One iteration of the warm-up loop. *)
Definition warm_step (Nmode : nat) (damp ka : list R)
  (s : pyval * pyval * G) : outcome (pyval * pyval * G) :=
  let '(asin, acos, g) := s in
  '(asin', g1) <- warm_update Nmode damp ka asin g ;;
  '(acos', g2) <- warm_update Nmode damp ka acos g1 ;;
  Ok (asin', acos', g2).

(** [for i in range(n)]: the body run [n] times. *)
Fixpoint repeat_step {S : Type} (body : S -> outcome S) (n : nat) (s : S)
  : outcome S :=
  match n with
  | O => Ok s
  | S n' => s' <- body s ;; repeat_step body n' s'
  end.

(** The warm-up phase, from [amplcos = 0.0], [amplsin = 0.0]. *)
Definition warmup (Nmode : nat) (eta ka : list R) (kts : R) (g : G)
  : outcome (pyval * pyval * G) :=
  let damp := warm_damp eta kts in
  n <- Nwarmup eta kts ;;
  repeat_step (warm_step Nmode damp ka) (Z.to_nat n)
    (PyFloat 0, PyFloat 0, g).

(** ** Main pass (lines 119 to 152) *)

(** The variables the main pass mutates. *)
Record state : Type := mkState {
  amplsin : pyval;
  amplcos : pyval;
  last_kicktime : list R;
  next_kicktime : list R;
  signal : list R;
  gen : G
}.

(** The entries of a quadrature component once it is an array. *)
Definition entries (a : pyval) : list R :=
  match a with
  | NdArray l => l
  | PyFloat _ => []
  end.

(** The state with its signal replaced. *)
Definition set_signal (sig : list R) (st : state) : state :=
  mkState (amplsin st) (amplcos st) (last_kicktime st) (next_kicktime st)
    sig (gen st).

Section MainPass.

Variables time freq eta ka : list R.
Variable kts : R.

(** The damped oscillation of mode [i] at output index [j], read off a
    state. *)
Definition mode_term (st : state) (j i : nat) : R :=
  exp (- nth i eta 0 * (nth j time 0 - nth i (last_kicktime st) 0))
  * (nth i (entries (amplsin st)) 0 * sin (2 * PI * nth i freq 0 * nth j time 0)
     + nth i (entries (amplcos st)) 0 * cos (2 * PI * nth i freq 0 * nth j time 0)).

(** The body of the [while] loop (lines 140 to 145): one kick of mode
    [i].  The sum [next_kicktime[i] + kicktimestep] is exact here and
    rounded in [Binary64.kick]. *)
Definition kick (i : nat) (st : state) : outcome state :=
  nk <- getitem (next_kicktime st) i ;;
  lk <- getitem (last_kicktime st) i ;;
  let deltatime := nk - lk in
  e <- getitem eta i ;;
  let damp := exp (- e * deltatime) in
  s <- py_getitem (amplsin st) i ;;
  k1 <- getitem ka i ;;
  '(n1, g1) <- normal 0 1 (gen st) ;;
  asin <- py_setitem (amplsin st) i (damp * s + k1 * n1) ;;
  c <- py_getitem (amplcos st) i ;;
  k2 <- getitem ka i ;;
  '(n2, g2) <- normal 0 1 g1 ;;
  acos <- py_setitem (amplcos st) i (damp * c + k2 * n2) ;;
  nk1 <- getitem (next_kicktime st) i ;;
  last <- setitem (last_kicktime st) i nk1 ;;
  nk2 <- getitem (next_kicktime st) i ;;
  next <- setitem (next_kicktime st) i (nk2 + kts) ;;
  Ok (mkState asin acos last next (signal st) g2).

(** [while (next_kicktime[i] <= time[j])]: the pending kicks of mode [i]
    at output index [j]. *)
Fixpoint kick_loop (fuel : nat) (j i : nat) (st : state) : outcome state :=
  nk <- getitem (next_kicktime st) i ;;
  tj <- getitem time j ;;
  if Rle_dec nk tj then
    match fuel with
    | O => OutOfFuel
    | S fuel' => st' <- kick i st ;; kick_loop fuel' j i st'
    end
  else Ok st.

(** The last small step until [time[j]] (lines 149 to 152). *)
Definition sample (j i : nat) (st : state) : outcome state :=
  tj <- getitem time j ;;
  lk <- getitem (last_kicktime st) i ;;
  let deltatime := tj - lk in
  e <- getitem eta i ;;
  let damp := exp (- e * deltatime) in
  sj <- getitem (signal st) j ;;
  s <- py_getitem (amplsin st) i ;;
  f1 <- getitem freq i ;;
  t1 <- getitem time j ;;
  c <- py_getitem (amplcos st) i ;;
  f2 <- getitem freq i ;;
  t2 <- getitem time j ;;
  sig <- setitem (signal st) j
           (sj + damp * (s * sin (2 * PI * f1 * t1)
                         + c * cos (2 * PI * f2 * t2))) ;;
  Ok (mkState (amplsin st) (amplcos st) (last_kicktime st)
        (next_kicktime st) sig (gen st)).

(** The state a kick of mode [i] leaves when every index is in range. *)
Definition kicked (i : nat) (st : state) : state :=
  let lk := nth i (last_kicktime st) 0 in
  let nk := nth i (next_kicktime st) 0 in
  let damp := exp (- nth i eta 0 * (nk - lk)) in
  let g1 := snd (gauss (gen st)) in
  mkState
    (NdArray (list_set (entries (amplsin st)) i
                (damp * nth i (entries (amplsin st)) 0
                 + nth i ka 0 * (0 + 1 * fst (gauss (gen st))))))
    (NdArray (list_set (entries (amplcos st)) i
                (damp * nth i (entries (amplcos st)) 0
                 + nth i ka 0 * (0 + 1 * fst (gauss g1)))))
    (list_set (last_kicktime st) i nk)
    (list_set (next_kicktime st) i (nk + kts))
    (signal st)
    (snd (gauss g1)).

(** The state the sampling step leaves when every index is in range. *)
Definition sampled (j i : nat) (st : state) : state :=
  mkState (amplsin st) (amplcos st) (last_kicktime st) (next_kicktime st)
    (list_set (signal st) j (nth j (signal st) 0 + mode_term st j i))
    (gen st).

(** The body of [for i in range(Nmode)]. *)
Definition mode_step (fuel : nat) (j i : nat) (st : state) : outcome state :=
  st' <- kick_loop fuel j i st ;;
  sample j i st'.

(** [for k in range(start, start + n)] over a state. *)
Fixpoint for_range (body : nat -> state -> outcome state)
  (start n : nat) (st : state) : outcome state :=
  match n with
  | O => Ok st
  | S n' => st' <- body start st ;; for_range body (S start) n' st'
  end.

(** The body of [for j in range(Ntime)]. *)
Definition time_step (fuel : nat) (j : nat) (st : state) : outcome state :=
  for_range (mode_step fuel j) 0 (length freq) st.

(** The main pass over the first [n] output times. *)
Definition main_pass (fuel : nat) (n : nat) (st : state) : outcome state :=
  for_range (time_step fuel) 0 n st.

End MainPass.

(** The state on entry of the main pass (lines 119, 120 and 128). *)
Definition init_state (time freq : list R) (kts : R)
  (asin acos : pyval) (g : G) : outcome state :=
  t0a <- getitem time 0 ;;
  t0b <- getitem time 0 ;;
  let (last, g') := uniform (t0a - kts) t0b (length freq) g in
  let next := map (fun l => l + kts) last in
  Ok (mkState asin acos last next (repeat 0 (length time)) g').

(** Everything up to the entry of the main pass: the kick timestep, the
    kick amplitudes and the initial state. *)
Definition setup (g : G) (time freq ampl eta : list R)
  : outcome (R * list R * state) :=
  kts <- kicktimestep eta ;;
  ka <- kick_amplitude ampl eta kts ;;
  '(asin, acos, g1) <- warmup (length freq) eta ka kts g ;;
  st <- init_state time freq kts asin acos g1 ;;
  Ok (kts, ka, st).

(** The state after the first [n] output times have been processed. *)
Definition run_upto (fuel : nat) (g : G) (time freq ampl eta : list R)
  (n : nat) : outcome state :=
  '(kts, ka, st) <- setup g time freq ampl eta ;;
  main_pass time freq eta ka kts fuel n st.

(** [solarosc(time, freq, ampl, eta)] *)
Definition solarosc (fuel : nat) (g : G) (time freq ampl eta : list R)
  : outcome (list R) :=
  st <- run_upto fuel g time freq ampl eta (length time) ;;
  Ok (signal st).

(** The state at output index [j] and mode [i] when the [while] loop
    has just been left, that is right before line 149; first from the
    state [st] on entry of the main pass, then from the inputs. *)
Definition pre_sample (time freq eta ka : list R) (kts : R) (fuel : nat)
  (st : state) (j i : nat) : outcome state :=
  st0 <- main_pass time freq eta ka kts fuel j st ;;
  st1 <- for_range (mode_step time freq eta ka kts fuel j) 0 i st0 ;;
  kick_loop time eta ka kts fuel j i st1.

Definition before_sample (fuel : nat) (g : G) (time freq ampl eta : list R)
  (j i : nat) : outcome state :=
  '(kts, ka, st) <- setup g time freq ampl eta ;;
  pre_sample time freq eta ka kts fuel st j i.

(** ** Notions used to state the properties *)


(** The pending kicks of mode [i] have all been applied at time [t]. *)
Definition clock_inv (kts t : R) (i : nat) (st : state) : Prop :=
  exists lk nk,
    nth_error (last_kicktime st) i = Some lk /\
    nth_error (next_kicktime st) i = Some nk /\
    lk <= t < nk /\ nk - lk = kts.

(** The quadrature components are arrays, the mode arrays of the state
    have [M] entries and its signal [N]. *)
Definition wf_state (M N : nat) (st : state) : Prop :=
  exists a b,
    amplsin st = NdArray a /\ amplcos st = NdArray b /\
    length a = M /\ length b = M /\
    length (last_kicktime st) = M /\
    length (next_kicktime st) = M /\
    length (signal st) = N.

(** Every mode's next kick is one kick timestep after its last one and
    not before [t0]; no last kick is later than [t]. *)
Definition clocks_ok (M : nat) (kts t0 t : R) (st : state) : Prop :=
  forall k, (k < M)%nat ->
    nth k (next_kicktime st) 0 = nth k (last_kicktime st) 0 + kts /\
    t0 <= nth k (next_kicktime st) 0 /\
    nth k (last_kicktime st) 0 <= t.

(** The modes before [m] have no kick pending at time [t]. *)
Definition caught_up (m : nat) (t : R) (st : state) : Prop :=
  forall k, (k < m)%nat -> t < nth k (next_kicktime st) 0.

(** A pair of arrays as quadrature components. *)
Definition as_arrays (s : list R * list R * G) : pyval * pyval * G :=
  let '(a, b, g) := s in (NdArray a, NdArray b, g).

Definition both_lengths (n : nat) (s : list R * list R * G) : Prop :=
  length (fst (fst s)) = n /\ length (snd (fst s)) = n.

(** Warm-up as the specification words it: from zero vectors, [n]
    iterations, each replacing every [a_i] by
    [exp(-eta_i * kicktimestep) * a_i] plus a fresh Gaussian of standard
    deviation [ka_i], first over [amplsin], then over [amplcos]. *)
Fixpoint spec_kicks (eta ka a : list R) (kts : R) (g : G) : list R * G :=
  match eta, ka, a with
  | e :: eta', k :: ka', x :: a' =>
      let (z, g1) := gauss g in
      let (rest, g2) := spec_kicks eta' ka' a' kts g1 in
      (exp (- e * kts) * x + k * z :: rest, g2)
  | _, _, _ => ([], g)
  end.

Definition spec_warm_iter (eta ka : list R) (kts : R)
  (s : list R * list R * G) : list R * list R * G :=
  let '(asin, acos, g) := s in
  let (asin', g1) := spec_kicks eta ka asin kts g in
  let (acos', g2) := spec_kicks eta ka acos kts g1 in
  (asin', acos', g2).

Fixpoint iterate {S : Type} (f : S -> S) (n : nat) (s : S) : S :=
  match n with
  | O => s
  | S n' => iterate f n' (f s)
  end.

Definition spec_Nwarmup (min_eta kts : R) : Z :=
  Z.min 20000 (Zfloor (1 / (min_eta * kts))).

Definition spec_warmup (eta ka : list R) (kts min_eta : R) (g : G)
  : list R * list R * G :=
  iterate (spec_warm_iter eta ka kts) (Z.to_nat (spec_Nwarmup min_eta kts))
    (repeat 0 (length eta), repeat 0 (length eta), g).

End Solarosc.

Arguments amplsin {G} _.
Arguments amplcos {G} _.
Arguments last_kicktime {G} _.
Arguments next_kicktime {G} _.
Arguments signal {G} _.
Arguments gen {G} _.
Arguments mkState {G} _ _ _ _ _ _.
Arguments as_arrays {G} s.
Arguments both_lengths {G} n s.
Arguments wf_state {G} M N st.
Arguments clocks_ok {G} M kts t0 t st.
Arguments caught_up {G} m t st.
Arguments clock_inv {G} kts t i st.
Arguments mode_term {G} time freq eta st j i.
Arguments set_signal {G} sig st.
Arguments kicked {G} gauss eta ka kts i st.
Arguments sampled {G} time freq eta j i st.

(** The sum of [f 0 .. f (M-1)]. *)
Definition sum_modes (f : nat -> R) (M : nat) : R :=
  fold_right Rplus 0 (map f (seq 0 M)).

(** Output times in non-decreasing order. *)
Definition nondecreasing (l : list R) : Prop :=
  forall j a b, nth_error l j = Some a -> nth_error l (S j) = Some b -> a <= b.

(** The shape the simulation expects of its inputs: at least one output
    time, in non-decreasing order; at least one mode, with a positive
    damping rate; mode arrays of one length. *)
Definition well_shaped (time freq ampl eta : list R) : Prop :=
  time <> [] /\ nondecreasing time /\
  eta <> [] /\ Forall (fun e => 0 < e) eta /\
  length freq = length eta /\ length ampl = length eta.

(** The number of kicks any one [while] loop can need: the output span
    in units of the kick timestep, plus one. *)
Definition kick_budget (time : list R) (kts : R) : nat :=
  Z.to_nat (Zfloor ((nth (length time - 1) time 0 - nth 0 time 0) / kts) + 1).

(** Scaling by a factor. *)
Definition scale (c : R) (l : list R) : list R := map (Rmult c) l.




(** A generator for concrete runs: every normal deviate is [1], every
    uniform deviate is [1/2]; the state counts the draws. *)
Definition demo_gauss (n : nat) : R * nat := (1, S n).
Definition demo_unif (n : nat) : R * nat := (/ 2, S n).

(** ** Further notions *)

(** The state with its signal cut to its first [n] entries. *)
Definition truncate {G : Type} (n : nat) (st : state G) : state G :=
  set_signal (firstn n (signal st)) st.


(** ** The demonstration driver [mainx] (lines 160 to 167) *)

(** [np.linspace(start, stop, num)]: [num] evenly spaced points, both
    ends included. *)
Definition linspace (start stop : R) (num : nat) : list R :=
  map (fun k => start + INR k * ((stop - start) / INR (num - 1)))
    (seq 0 num).

Definition mainx_time : list R := linspace 0 40 100.
Definition mainx_freq : list R := [23; 23.5].
Definition mainx_ampl : list R := [100; 110].
Definition mainx_eta : list R := [1 / 1000000; 3 / 1000000].

(** The series [mainx] hands to the plot:
    [signal = flux * (1.0 + oscsignal)] with [flux = 1000000.0]. *)
Definition mainx_signal {G : Type} (gauss unif : G -> R * G)
  (fuel : nat) (g : G) : outcome (list R) :=
  oscsignal <- solarosc G gauss unif fuel g
                 mainx_time mainx_freq mainx_ampl mainx_eta ;;
  Ok (map (fun x => 1000000 * (1 + x)) oscsignal).

(** * The program on IEEE doubles

    The same program with every Python float and every [float64] entry
    a binary64 number and every arithmetic operation the IEEE one,
    rounded to nearest.  [np.exp], [math.sin] and [math.cos] are the
    platform's: any three functions on doubles.  Nothing is finite by
    assumption here: a division by zero gives an infinity, the square
    root of a negative number a NaN, and the run goes on until Python
    or numpy raises. *)

Module Binary64.
Import PrimFloat FloatOps SpecFloat.
Local Open Scope float_scope.

(** A Python float or a one-dimensional array. *)
Inductive pyval : Type :=
| PyFloat (x : float)
| NdArray (l : list float).

(** [l[i]] on an array. *)
Definition getitem (l : list float) (i : nat) : outcome float :=
  match nth_error l i with
  | Some x => Ok x
  | None => Raise IndexError
  end.

Fixpoint list_set (l : list float) (i : nat) (v : float) : list float :=
  match l, i with
  | [], _ => []
  | _ :: t, O => v :: t
  | h :: t, S i' => h :: list_set t i' v
  end.

(** [l[i] = v] on an array. *)
Definition setitem (l : list float) (i : nat) (v : float)
  : outcome (list float) :=
  if (i <? length l)%nat then Ok (list_set l i v) else Raise IndexError.

(** [a[i]] where [a] may still be the float it was initialised to. *)
Definition py_getitem (a : pyval) (i : nat) : outcome float :=
  match a with
  | PyFloat _ => Raise TypeError
  | NdArray l => getitem l i
  end.

Definition py_setitem (a : pyval) (i : nat) (v : float) : outcome pyval :=
  match a with
  | PyFloat _ => Raise TypeError
  | NdArray l => l' <- setitem l i v ;; Ok (NdArray l')
  end.

(** The builtins [max] and [min]: the first element is the running
    extremum, replaced by every later element that compares strictly
    better (a comparison with a NaN is false). *)
Definition py_max (l : list float) : outcome float :=
  match l with
  | [] => Raise ValueError
  | x :: xs => Ok (fold_left (fun m y => if m <? y then y else m) xs x)
  end.

Definition py_min (l : list float) : outcome float :=
  match l with
  | [] => Raise ValueError
  | x :: xs => Ok (fold_left (fun m y => if y <? m then y else m) xs x)
  end.

(** [int(floor(x))]: the largest integer not above [x]; a NaN raises
    [ValueError] and an infinity [OverflowError]. *)
Definition py_floor (x : float) : outcome Z :=
  match Prim2SF x with
  | S754_nan => Raise ValueError
  | S754_infinity _ => Raise OverflowError
  | S754_zero _ => Ok 0%Z
  | S754_finite s m e => Ok (Z.shiftl (if s then Z.neg m else Z.pos m) e)
  end.

(** [math.pi] *)
Definition pi : float := 0x1.921fb54442d18p+1.

Fixpoint map2 {A : Type} (f : float -> float -> A) (xs ys : list float)
  : list A :=
  match xs, ys with
  | x :: xs', y :: ys' => f x y :: map2 f xs' ys'
  | _, _ => []
  end.

(** numpy broadcasting of two one-dimensional arrays. *)
Definition broadcast {A : Type} (f : float -> float -> A)
  (xs ys : list float) : outcome (list A) :=
  if (length xs =? length ys)%nat then Ok (map2 f xs ys)
  else match xs, ys with
       | [x], _ => Ok (map (f x) ys)
       | _, [y] => Ok (map (fun x => f x y) xs)
       | _, _ => Raise ValueError
       end.

(** An arithmetic operator on floats and arrays. *)
Definition np_binop (f : float -> float -> float) (a b : pyval)
  : outcome pyval :=
  match a, b with
  | PyFloat x, PyFloat y => Ok (PyFloat (f x y))
  | PyFloat x, NdArray ys => Ok (NdArray (map (f x) ys))
  | NdArray xs, PyFloat y => Ok (NdArray (map (fun x => f x y) xs))
  | NdArray xs, NdArray ys => l <- broadcast f xs ys ;; Ok (NdArray l)
  end.

Section Solarosc.

Variable G : Type.
(** One standard normal deviate, and the generator after the draw. *)
Variable gauss : G -> float * G.
(** One uniform deviate of [[0,1)], and the generator after the draw. *)
Variable unif : G -> float * G.
(** [np.exp], [math.sin] and [math.cos] on finite arguments. *)
Variables fexp fsin fcos : float -> float.

(** [math.sin(x)] and [math.cos(x)]: an infinite argument raises
    [ValueError]. *)
Definition py_sin (x : float) : outcome float :=
  if is_infinity x then Raise ValueError else Ok (fsin x).

Definition py_cos (x : float) : outcome float :=
  if is_infinity x then Raise ValueError else Ok (fcos x).

(** [normal(loc, scale)] on floats: [loc + scale * z]; a scale with its
    sign bit set (a negative number or [-0.0]) is rejected, a NaN is
    not. *)
Definition normal (loc scale : float) (g : G) : outcome (float * G) :=
  if get_sign scale then Raise ValueError
  else let (z, g') := gauss g in Ok (loc + scale * z, g').

Fixpoint normal_draws (ps : list (float * float)) (g : G) : list float * G :=
  match ps with
  | [] => ([], g)
  | (loc, scale) :: ps' =>
      let (z, g1) := gauss g in
      let (rest, g2) := normal_draws ps' g1 in
      (loc + scale * z :: rest, g2)
  end.

(** [normal(loc, scale)] on arrays: the scales are checked, the two
    arrays are broadcast, and one deviate is drawn per entry, in order. *)
Definition normal_vec (loc scale : list float) (g : G)
  : outcome (list float * G) :=
  if existsb get_sign scale then Raise ValueError
  else ps <- broadcast pair loc scale ;; Ok (normal_draws ps g).

Fixpoint uniform_draws (low range : float) (n : nat) (g : G)
  : list float * G :=
  match n with
  | O => ([], g)
  | S n' =>
      let (u, g1) := unif g in
      let (rest, g2) := uniform_draws low range n' g1 in
      (low + range * u :: rest, g2)
  end.

(** [uniform(low, high, n)]: the range [high - low] must be finite;
    then [n] draws of [low + (high - low) * u]. *)
Definition uniform (low high : float) (n : nat) (g : G)
  : outcome (list float * G) :=
  let range := high - low in
  if is_finite range then Ok (uniform_draws low range n g)
  else Raise OverflowError.

(** [kicktimestep = (1.0 / max(eta)) / 100.0] (line 86) *)
Definition kicktimestep (eta : list float) : outcome float :=
  m <- py_max eta ;;
  Ok (1 / m / 100).

(** [kick_amplitude = ampl * np.sqrt(kicktimestep * eta)] (line 97) *)
Definition kick_amplitude (ampl eta : list float) (kts : float)
  : outcome (list float) :=
  broadcast mul ampl (map (fun e => sqrt (kts * e)) eta).

(** [damp = np.exp(-eta * kicktimestep)] (line 104) *)
Definition warm_damp (eta : list float) (kts : float) : list float :=
  map (fun e => fexp (- e * kts)) eta.

(** [Nwarmup = min(20000, int(floor(1.0 / min(eta) / kicktimestep)))]
    (line 105) *)
Definition Nwarmup (eta : list float) (kts : float) : outcome Z :=
  m <- py_min eta ;;
  n <- py_floor (1 / m / kts) ;;
  Ok (Z.min 20000 n).

(** [a = damp * a + normal(np.zeros(Nmode), kick_amplitude)] *)
Definition warm_update (Nmode : nat) (damp ka : list float) (a : pyval)
  (g : G) : outcome (pyval * G) :=
  p <- np_binop mul (NdArray damp) a ;;
  '(n, g') <- normal_vec (repeat 0 Nmode) ka g ;;
  a' <- np_binop add p (NdArray n) ;;
  Ok (a', g').

(** One iteration of the warm-up loop (lines 110 to 112). *)
Definition warm_step (Nmode : nat) (damp ka : list float)
  (s : pyval * pyval * G) : outcome (pyval * pyval * G) :=
  let '(asin, acos, g) := s in
  '(asin', g1) <- warm_update Nmode damp ka asin g ;;
  '(acos', g2) <- warm_update Nmode damp ka acos g1 ;;
  Ok (asin', acos', g2).

(** The warm-up phase, from [amplcos = 0.0], [amplsin = 0.0]. *)
Definition warmup (Nmode : nat) (eta ka : list float) (kts : float) (g : G)
  : outcome (pyval * pyval * G) :=
  let damp := warm_damp eta kts in
  n <- Nwarmup eta kts ;;
  repeat_step (warm_step Nmode damp ka) (Z.to_nat n)
    (PyFloat 0, PyFloat 0, g).

(** The variables the main pass mutates. *)
Record state : Type := mkState {
  amplsin : pyval;
  amplcos : pyval;
  last_kicktime : list float;
  next_kicktime : list float;
  signal : list float;
  gen : G
}.

(** The entries of a quadrature component once it is an array. *)
Definition entries (a : pyval) : list float :=
  match a with
  | NdArray l => l
  | PyFloat _ => []
  end.

Section MainPass.

Variables time freq eta ka : list float.
Variable kts : float.

(** The body of the [while] loop (lines 140 to 145): one kick of mode [i]. *)
Definition kick (i : nat) (st : state) : outcome state :=
  nk <- getitem (next_kicktime st) i ;;
  lk <- getitem (last_kicktime st) i ;;
  let deltatime := nk - lk in
  e <- getitem eta i ;;
  let damp := fexp (- e * deltatime) in
  s <- py_getitem (amplsin st) i ;;
  k1 <- getitem ka i ;;
  '(n1, g1) <- normal 0 1 (gen st) ;;
  asin <- py_setitem (amplsin st) i (damp * s + k1 * n1) ;;
  c <- py_getitem (amplcos st) i ;;
  k2 <- getitem ka i ;;
  '(n2, g2) <- normal 0 1 g1 ;;
  acos <- py_setitem (amplcos st) i (damp * c + k2 * n2) ;;
  nk1 <- getitem (next_kicktime st) i ;;
  last <- setitem (last_kicktime st) i nk1 ;;
  nk2 <- getitem (next_kicktime st) i ;;
  next <- setitem (next_kicktime st) i (nk2 + kts) ;;
  Ok (mkState asin acos last next (signal st) g2).

(** [while (next_kicktime[i] <= time[j])]: the pending kicks of mode [i]
    at output index [j]. *)
Fixpoint kick_loop (fuel : nat) (j i : nat) (st : state) : outcome state :=
  nk <- getitem (next_kicktime st) i ;;
  tj <- getitem time j ;;
  if nk <=? tj then
    match fuel with
    | O => OutOfFuel
    | S fuel' => st' <- kick i st ;; kick_loop fuel' j i st'
    end
  else Ok st.

(** The last small step until [time[j]] (lines 149 to 152). *)
Definition sample (j i : nat) (st : state) : outcome state :=
  tj <- getitem time j ;;
  lk <- getitem (last_kicktime st) i ;;
  let deltatime := tj - lk in
  e <- getitem eta i ;;
  let damp := fexp (- e * deltatime) in
  sj <- getitem (signal st) j ;;
  s <- py_getitem (amplsin st) i ;;
  f1 <- getitem freq i ;;
  t1 <- getitem time j ;;
  v1 <- py_sin (2 * pi * f1 * t1) ;;
  c <- py_getitem (amplcos st) i ;;
  f2 <- getitem freq i ;;
  t2 <- getitem time j ;;
  v2 <- py_cos (2 * pi * f2 * t2) ;;
  sig <- setitem (signal st) j (sj + damp * (s * v1 + c * v2)) ;;
  Ok (mkState (amplsin st) (amplcos st) (last_kicktime st)
        (next_kicktime st) sig (gen st)).

(** The state a kick of mode [i] leaves when every index is in range. *)
Definition kicked (i : nat) (st : state) : state :=
  let lk := nth i (last_kicktime st) 0 in
  let nk := nth i (next_kicktime st) 0 in
  let damp := fexp (- nth i eta 0 * (nk - lk)) in
  let g1 := snd (gauss (gen st)) in
  mkState
    (NdArray (list_set (entries (amplsin st)) i
                (damp * nth i (entries (amplsin st)) 0
                 + nth i ka 0 * (0 + 1 * fst (gauss (gen st))))))
    (NdArray (list_set (entries (amplcos st)) i
                (damp * nth i (entries (amplcos st)) 0
                 + nth i ka 0 * (0 + 1 * fst (gauss g1)))))
    (list_set (last_kicktime st) i nk)
    (list_set (next_kicktime st) i (nk + kts))
    (signal st)
    (snd (gauss g1)).

(** The body of [for i in range(Nmode)]. *)
Definition mode_step (fuel : nat) (j i : nat) (st : state) : outcome state :=
  st' <- kick_loop fuel j i st ;;
  sample j i st'.

(** [for k in range(start, start + n)] over a state. *)
Fixpoint for_range (body : nat -> state -> outcome state)
  (start n : nat) (st : state) : outcome state :=
  match n with
  | O => Ok st
  | S n' => st' <- body start st ;; for_range body (S start) n' st'
  end.

(** The body of [for j in range(Ntime)]. *)
Definition time_step (fuel : nat) (j : nat) (st : state) : outcome state :=
  for_range (mode_step fuel j) 0 (length freq) st.

(** The main pass over the first [n] output times. *)
Definition main_pass (fuel : nat) (n : nat) (st : state) : outcome state :=
  for_range (time_step fuel) 0 n st.

End MainPass.

(** The state on entry of the main pass (lines 119, 120 and 128). *)
Definition init_state (time freq : list float) (kts : float)
  (asin acos : pyval) (g : G) : outcome state :=
  t0a <- getitem time 0 ;;
  t0b <- getitem time 0 ;;
  '(last, g') <- uniform (t0a - kts) t0b (length freq) g ;;
  let next := map (fun l => l + kts) last in
  Ok (mkState asin acos last next (repeat 0 (length time)) g').

(** Everything up to the entry of the main pass. *)
Definition setup (g : G) (time freq ampl eta : list float)
  : outcome (float * list float * state) :=
  kts <- kicktimestep eta ;;
  ka <- kick_amplitude ampl eta kts ;;
  '(asin, acos, g1) <- warmup (length freq) eta ka kts g ;;
  st <- init_state time freq kts asin acos g1 ;;
  Ok (kts, ka, st).

(** The state after the first [n] output times have been processed. *)
Definition run_upto (fuel : nat) (g : G) (time freq ampl eta : list float)
  (n : nat) : outcome state :=
  '(kts, ka, st) <- setup g time freq ampl eta ;;
  main_pass time freq eta ka kts fuel n st.

(** [solarosc(time, freq, ampl, eta)] *)
Definition solarosc (fuel : nat) (g : G) (time freq ampl eta : list float)
  : outcome (list float) :=
  st <- run_upto fuel g time freq ampl eta (length time) ;;
  Ok (signal st).

(** The state at output index [j] and mode [i] when the [while] loop
    has just been left, that is right before line 149. *)
Definition pre_sample (time freq eta ka : list float) (kts : float)
  (fuel : nat) (st : state) (j i : nat) : outcome state :=
  st0 <- main_pass time freq eta ka kts fuel j st ;;
  st1 <- for_range (mode_step time freq eta ka kts fuel j) 0 i st0 ;;
  kick_loop time eta ka kts fuel j i st1.

Definition before_sample (fuel : nat) (g : G)
  (time freq ampl eta : list float) (j i : nat) : outcome state :=
  '(kts, ka, st) <- setup g time freq ampl eta ;;
  pre_sample time freq eta ka kts fuel st j i.

(** ** Notions used to state the properties *)

(** The clock of mode [i] as the code leaves it at time [t]: the last
    kick is not after [t], the test [next_kicktime[i] <= t] of the
    [while] loop fails, and the next kick is the double
    [last_kicktime[i] + kicktimestep]. *)
Definition clock_inv (kts t : float) (i : nat) (st : state) : Prop :=
  exists lk nk,
    nth_error (last_kicktime st) i = Some lk /\
    nth_error (next_kicktime st) i = Some nk /\
    (lk <=? t) = true /\ (nk <=? t) = false /\ nk = lk + kts.

(** [next_kicktime[i]] after [k] kicks: [k] additions of the kick
    timestep, each rounded. *)
Fixpoint clock_after (kts : float) (k : nat) (nk : float) : float :=
  match k with
  | O => nk
  | S k' => clock_after kts k' (nk + kts)
  end.


(** The kick times have [M] entries; every mode's next kick is the
    double one kick timestep after its last one, and no last kick is
    after [t]. *)
Definition clocks_ok (M : nat) (kts t : float) (st : state) : Prop :=
  length (last_kicktime st) = M /\ length (next_kicktime st) = M /\
  forall k, (k < M)%nat ->
    nth k (next_kicktime st) 0 = nth k (last_kicktime st) 0 + kts /\
    (nth k (last_kicktime st) 0 <=? t) = true.

(** For the modes before [m] the test of the [while] loop fails at
    time [t]. *)
Definition caught_up (m : nat) (t : float) (st : state) : Prop :=
  forall k, (k < m)%nat -> (nth k (next_kicktime st) 0 <=? t) = false.

(** A pair of arrays as quadrature components. *)
Definition as_arrays (s : list float * list float * G) : pyval * pyval * G :=
  let '(a, b, g) := s in (NdArray a, NdArray b, g).

Definition both_lengths (n : nat) (s : list float * list float * G) : Prop :=
  length (fst (fst s)) = n /\ length (snd (fst s)) = n.

(** Warm-up as the specification words it: each iteration replaces
    every [a_i] by [exp(-eta_i * kicktimestep) * a_i] plus a fresh
    Gaussian of mean 0 and standard deviation [ka_i] (the mean plus the
    deviation times a standard normal deviate), first over [amplsin],
    then over [amplcos]. *)
Fixpoint spec_kicks (eta ka a : list float) (kts : float) (g : G)
  : list float * G :=
  match eta, ka, a with
  | e :: eta', k :: ka', x :: a' =>
      let (z, g1) := gauss g in
      let (rest, g2) := spec_kicks eta' ka' a' kts g1 in
      (fexp (- e * kts) * x + (0 + k * z) :: rest, g2)
  | _, _, _ => ([], g)
  end.

Definition spec_warm_iter (eta ka : list float) (kts : float)
  (s : list float * list float * G) : list float * list float * G :=
  let '(asin, acos, g) := s in
  let (asin', g1) := spec_kicks eta ka asin kts g in
  let (acos', g2) := spec_kicks eta ka acos kts g1 in
  (asin', acos', g2).

(** [n] iterations from zero quadrature components; none when [n] is
    not positive. *)
Definition spec_warmup (eta ka : list float) (kts : float) (n : Z) (g : G)
  : list float * list float * G :=
  iterate (spec_warm_iter eta ka kts) (Z.to_nat n)
    (repeat 0 (length eta), repeat 0 (length eta), g).

End Solarosc.

Arguments amplsin {G} _.
Arguments amplcos {G} _.
Arguments last_kicktime {G} _.
Arguments next_kicktime {G} _.
Arguments signal {G} _.
Arguments gen {G} _.
Arguments mkState {G} _ _ _ _ _ _.

(** Output times in non-decreasing order. *)
Definition nondecreasing (l : list float) : Prop :=
  forall j a b,
    nth_error l j = Some a -> nth_error l (S j) = Some b -> (a <=? b) = true.


(** A generator for concrete runs: every normal deviate is [1], every
    uniform deviate is [1/2]; the state counts the draws. *)
Definition demo_gauss (n : nat) : float * nat := (1, S n).
Definition demo_unif (n : nat) : float * nat := (0.5, S n).


(** Stand-ins for [np.exp], [math.sin] and [math.cos] where a concrete
    run needs three functions; they have the values of the real ones at
    zero. *)
Definition unit_exp (x : float) : float := 1.
Definition zero_sin (x : float) : float := 0.
Definition unit_cos (x : float) : float := 1.

End Binary64.

(** * Properties *)

Ltac conj := repeat match goal with |- _ /\ _ => split end.

(** ** Lists, indexing and the outcome monad *)

Lemma length_list_set (l : list R) (i : nat) (v : R) :
  length (list_set l i v) = length l.
Proof.
  revert i; induction l as [|h t IH]; intros [|i]; simpl; auto.
Qed.

Lemma nth_error_list_set_eq (l : list R) (i : nat) (v : R) :
  (i < length l)%nat -> nth_error (list_set l i v) i = Some v.
Proof.
  revert i; induction l as [|h t IH]; intros [|i] H; simpl in *; try lia; auto.
  apply IH; lia.
Qed.

Lemma nth_error_list_set_ne (l : list R) (i k : nat) (v : R) :
  i <> k -> nth_error (list_set l i v) k = nth_error l k.
Proof.
  revert i k; induction l as [|h t IH]; intros [|i] [|k] H; simpl; auto;
    try congruence.
Qed.

Lemma nth_list_set_eq (l : list R) (i : nat) (v d : R) :
  (i < length l)%nat -> nth i (list_set l i v) d = v.
Proof.
  intro H. apply nth_error_nth. now apply nth_error_list_set_eq.
Qed.

Lemma nth_list_set_ne (l : list R) (i k : nat) (v d : R) :
  i <> k -> nth k (list_set l i v) d = nth k l d.
Proof.
  revert i k; induction l as [|h t IH]; intros [|i] [|k] H; simpl; auto.
  congruence.
Qed.

Lemma nth_error_nth_lt (l : list R) (i : nat) (d : R) :
  (i < length l)%nat -> nth_error l i = Some (nth i l d).
Proof.
  intro H. now apply nth_error_nth'.
Qed.

Lemma getitem_lt (l : list R) (i : nat) :
  (i < length l)%nat -> getitem l i = Ok (nth i l 0).
Proof.
  intro H. unfold getitem. now rewrite (nth_error_nth_lt l i 0 H).
Qed.

Lemma getitem_ge (l : list R) (i : nat) :
  (length l <= i)%nat -> getitem l i = Raise IndexError.
Proof.
  intro H. unfold getitem.
  now destruct (nth_error l i) eqn:E; [apply nth_error_None in H; congruence|].
Qed.

Lemma setitem_lt (l : list R) (i : nat) (v : R) :
  (i < length l)%nat -> setitem l i v = Ok (list_set l i v).
Proof.
  intro H. unfold setitem. apply Nat.ltb_lt in H. now rewrite H.
Qed.

Lemma bind_Ok_inv {A B : Type} (c : outcome A) (k : A -> outcome B) (b : B) :
  bind c k = Ok b -> exists a, c = Ok a /\ k a = Ok b.
Proof.
  destruct c; simpl; intro H; try discriminate. eauto.
Qed.

(** ** The builtins [max] and [min] *)

Lemma fold_max_spec (xs : list R) (x : R) :
  let m := fold_left (fun m y => if Rlt_dec m y then y else m) xs x in
  In m (x :: xs) /\ forall e, In e (x :: xs) -> e <= m.
Proof.
  revert x; induction xs as [|y ys IH]; intro x; simpl.
  - split; [auto|]. intros e [->|[]]; lra.
  - destruct (Rlt_dec x y) as [Hlt|Hge].
    + destruct (IH y) as [Hin Hle]. simpl in Hin, Hle. split.
      * destruct Hin as [H|H]; auto.
      * intros e [->|[->|He]].
        -- specialize (Hle y (or_introl eq_refl)). lra.
        -- apply Hle; auto.
        -- apply Hle; auto.
    + destruct (IH x) as [Hin Hle]. simpl in Hin, Hle. split.
      * destruct Hin as [H|H]; auto.
      * intros e [->|[->|He]].
        -- apply Hle; auto.
        -- specialize (Hle x (or_introl eq_refl)). lra.
        -- apply Hle; auto.
Qed.

Lemma fold_min_spec (xs : list R) (x : R) :
  let m := fold_left (fun m y => if Rlt_dec y m then y else m) xs x in
  In m (x :: xs) /\ forall e, In e (x :: xs) -> m <= e.
Proof.
  revert x; induction xs as [|y ys IH]; intro x; simpl.
  - split; [auto|]. intros e [->|[]]; lra.
  - destruct (Rlt_dec y x) as [Hlt|Hge].
    + destruct (IH y) as [Hin Hle]. simpl in Hin, Hle. split.
      * destruct Hin as [H|H]; auto.
      * intros e [->|[->|He]].
        -- specialize (Hle y (or_introl eq_refl)). lra.
        -- apply Hle; auto.
        -- apply Hle; auto.
    + destruct (IH x) as [Hin Hle]. simpl in Hin, Hle. split.
      * destruct Hin as [H|H]; auto.
      * intros e [->|[->|He]].
        -- apply Hle; auto.
        -- specialize (Hle x (or_introl eq_refl)). lra.
        -- apply Hle; auto.
Qed.

Lemma py_max_spec (l : list R) :
  l <> [] ->
  exists m, py_max l = Ok m /\ In m l /\ forall e, In e l -> e <= m.
Proof.
  destruct l as [|x xs]; [congruence|]. intros _.
  eexists; split; [reflexivity|]. apply fold_max_spec.
Qed.

Lemma py_min_spec (l : list R) :
  l <> [] ->
  exists m, py_min l = Ok m /\ In m l /\ forall e, In e l -> m <= e.
Proof.
  destruct l as [|x xs]; [congruence|]. intros _.
  eexists; split; [reflexivity|]. apply fold_min_spec.
Qed.

(** ** Parameter derivation *)

Lemma fdiv_nonzero (x y : R) : y <> 0 -> fdiv x y = Ok (x / y).
Proof.
  intro H. unfold fdiv. now destruct (Req_dec_T y 0).
Qed.

Lemma fdiv_zero (x : R) : fdiv x 0 = NonFinite.
Proof.
  unfold fdiv. now destruct (Req_dec_T 0 0).
Qed.

Lemma kicktimestep_eq (eta : list R) (m : R) :
  py_max eta = Ok m -> m <> 0 -> kicktimestep eta = Ok (1 / m / 100).
Proof.
  intros Hm Hz. unfold kicktimestep. rewrite Hm. simpl.
  rewrite (fdiv_nonzero 1 m Hz). simpl. apply fdiv_nonzero. lra.
Qed.

Lemma np_sqrt_nonneg (l : list R) :
  Forall (fun x => 0 <= x) l -> np_sqrt l = Ok (map sqrt l).
Proof.
  induction 1 as [|x t Hx Ht IH]; simpl; [reflexivity|].
  destruct (Rlt_dec x 0); [lra|]. now rewrite IH.
Qed.

Lemma map2_length {A : Type} (f : R -> R -> A) (xs ys : list R) :
  length xs = length ys -> length (map2 f xs ys) = length xs.
Proof.
  revert ys; induction xs as [|x xs IH]; intros [|y ys] H; simpl in *;
    try discriminate; auto.
Qed.


Lemma broadcast_same {A : Type} (f : R -> R -> A) (xs ys : list R) :
  length xs = length ys -> broadcast f xs ys = Ok (map2 f xs ys).
Proof.
  intro H. unfold broadcast. apply Nat.eqb_eq in H. now rewrite H.
Qed.

Lemma kick_amplitude_eq (ampl eta : list R) (kts : R) :
  Forall (fun e => 0 <= kts * e) eta -> length ampl = length eta ->
  kick_amplitude ampl eta kts
  = Ok (map2 Rmult ampl (map sqrt (map (fun e => kts * e) eta))).
Proof.
  intros Hpos Hlen. unfold kick_amplitude.
  rewrite np_sqrt_nonneg.
  - simpl. apply broadcast_same. now rewrite !length_map.
  - apply Forall_map. exact Hpos.
Qed.

Lemma positive_max (eta : list R) (m : R) :
  Forall (fun e => 0 < e) eta -> In m eta -> 0 < m.
Proof.
  intros H Hin. rewrite Forall_forall in H. now apply H.
Qed.

(** ** Warm-up *)

Section WarmUp.

Variable G : Type.
Variable gauss : G -> R * G.

Lemma scales_accepted (ka : list R) :
  Forall (fun s => 0 <= s) ka ->
  existsb (fun s => if Rlt_dec s 0 then true else false) ka = false.
Proof.
  induction 1 as [|s t Hs Ht IH]; simpl; [reflexivity|].
  destruct (Rlt_dec s 0); [lra|]. exact IH.
Qed.

Lemma scales_accepted_inv (ka : list R) :
  existsb (fun s => if Rlt_dec s 0 then true else false) ka = false ->
  Forall (fun s => 0 <= s) ka.
Proof.
  induction ka as [|s t IH]; simpl; intro H; constructor.
  - destruct (Rlt_dec s 0); [discriminate|lra].
  - apply IH. destruct (Rlt_dec s 0); [discriminate|exact H].
Qed.

Lemma normal_vec_Ok_scales (loc ka : list R) (g : G) r :
  normal_vec G gauss loc ka g = Ok r -> Forall (fun s => 0 <= s) ka.
Proof.
  unfold normal_vec. intro H. apply scales_accepted_inv.
  destruct (existsb _ ka); [discriminate|reflexivity].
Qed.

Lemma normal_vec_zeros (ka : list R) (g : G) :
  Forall (fun s => 0 <= s) ka ->
  normal_vec G gauss (repeat 0 (length ka)) ka g
  = Ok (normal_draws G gauss (map2 pair (repeat 0 (length ka)) ka) g).
Proof.
  intro H. unfold normal_vec. rewrite (scales_accepted ka H).
  rewrite broadcast_same by apply repeat_length. reflexivity.
Qed.

Lemma spec_kicks_length (eta ka a : list R) (kts : R) (g : G) :
  length ka = length eta -> length a = length eta ->
  length (fst (spec_kicks G gauss eta ka a kts g)) = length eta.
Proof.
  revert ka a g; induction eta as [|e eta IH]; intros [|k ka] [|x a] g Hk Ha;
    simpl in *; try discriminate; auto.
  destruct (gauss g) as [z g1].
  specialize (IH ka a g1 ltac:(lia) ltac:(lia)).
  destruct (spec_kicks G gauss eta ka a kts g1) as [rest g2]. simpl in *. lia.
Qed.

(** The array expression of line 111 computes, entry by entry, what the
    elementwise kick does. *)
Lemma array_update_spec (eta ka a : list R) (kts : R) (g : G) :
  length ka = length eta -> length a = length eta ->
  (let (n, g') := normal_draws G gauss (map2 pair (repeat 0 (length ka)) ka) g in
   (map2 Rplus (map2 Rmult (warm_damp eta kts) a) n, g'))
  = spec_kicks G gauss eta ka a kts g.
Proof.
  revert ka a g; induction eta as [|e eta IH]; intros [|k ka] [|x a] g Hk Ha;
    simpl in *; try discriminate; auto.
  destruct (gauss g) as [z g1].
  specialize (IH ka a g1 ltac:(lia) ltac:(lia)).
  destruct (normal_draws G gauss _ g1) as [n g'].
  destruct (spec_kicks G gauss eta ka a kts g1) as [rest g2].
  inversion IH; subst. simpl. f_equal. f_equal. ring.
Qed.

Lemma normal_draws_length (ps : list (R * R)) (g : G) :
  length (fst (normal_draws G gauss ps g)) = length ps.
Proof.
  revert g; induction ps as [|[m s] ps IH]; intro g; simpl; auto.
  destruct (gauss g) as [z g1]. specialize (IH g1).
  destruct (normal_draws G gauss ps g1). simpl in *. lia.
Qed.

Lemma warm_update_array (eta ka a : list R) (kts : R) (g : G) :
  length ka = length eta -> length a = length eta ->
  Forall (fun s => 0 <= s) ka ->
  warm_update G gauss (length eta) (warm_damp eta kts) ka (NdArray a) g
  = Ok (NdArray (fst (spec_kicks G gauss eta ka a kts g)),
        snd (spec_kicks G gauss eta ka a kts g)).
Proof.
  intros Hk Ha Hnn. unfold warm_update. simpl.
  rewrite broadcast_same by (unfold warm_damp; rewrite length_map; lia).
  simpl. rewrite <- Hk. rewrite (normal_vec_zeros ka g Hnn). simpl.
  rewrite <- (array_update_spec eta ka a kts g Hk Ha).
  pose proof (normal_draws_length (map2 pair (repeat 0 (length ka)) ka) g) as Hl.
  destruct (normal_draws G gauss _ g) as [n g']. simpl in *.
  rewrite broadcast_same.
  - reflexivity.
  - rewrite Hl. rewrite !map2_length; unfold warm_damp;
      rewrite ?length_map, ?repeat_length; lia.
Qed.

Lemma map_mult_zero (damp : list R) :
  map (fun d => d * 0) damp = map2 Rmult damp (repeat 0 (length damp)).
Proof.
  induction damp as [|d t IH]; simpl; [reflexivity|]. now rewrite IH.
Qed.

Lemma warm_update_float (eta ka : list R) (kts : R) (g : G) :
  length ka = length eta ->
  Forall (fun s => 0 <= s) ka ->
  warm_update G gauss (length eta) (warm_damp eta kts) ka (PyFloat 0) g
  = warm_update G gauss (length eta) (warm_damp eta kts) ka
      (NdArray (repeat 0 (length eta))) g.
Proof.
  intros Hk Hnn. unfold warm_update. simpl.
  rewrite broadcast_same
    by (unfold warm_damp; rewrite length_map, repeat_length; lia).
  simpl. rewrite map_mult_zero. unfold warm_damp. rewrite length_map.
  reflexivity.
Qed.

Lemma spec_warm_iter_lengths (eta ka : list R) (kts : R) s :
  length ka = length eta -> both_lengths (length eta) s ->
  both_lengths (length eta) (spec_warm_iter G gauss eta ka kts s).
Proof.
  destruct s as [[a b] g]. unfold both_lengths. simpl. intros Hk [Ha Hb].
  pose proof (spec_kicks_length eta ka a kts g Hk Ha) as H1.
  destruct (spec_kicks G gauss eta ka a kts g) as [a' g1].
  pose proof (spec_kicks_length eta ka b kts g1 Hk Hb) as H2.
  destruct (spec_kicks G gauss eta ka b kts g1) as [b' g2].
  simpl in *. auto.
Qed.

Lemma warm_step_arrays (eta ka : list R) (kts : R) s :
  length ka = length eta -> Forall (fun x => 0 <= x) ka ->
  both_lengths (length eta) s ->
  warm_step G gauss (length eta) (warm_damp eta kts) ka (as_arrays s)
  = Ok (as_arrays (spec_warm_iter G gauss eta ka kts s)).
Proof.
  destruct s as [[a b] g]. unfold both_lengths. simpl. intros Hk Hnn [Ha Hb].
  rewrite (warm_update_array eta ka a kts g Hk Ha Hnn). simpl.
  destruct (spec_kicks G gauss eta ka a kts g) as [a' g1]. simpl.
  rewrite (warm_update_array eta ka b kts g1 Hk Hb Hnn). simpl.
  destruct (spec_kicks G gauss eta ka b kts g1) as [b' g2]. reflexivity.
Qed.

Lemma warm_step_floats (eta ka : list R) (kts : R) (g : G) :
  length ka = length eta -> Forall (fun x => 0 <= x) ka ->
  warm_step G gauss (length eta) (warm_damp eta kts) ka (PyFloat 0, PyFloat 0, g)
  = warm_step G gauss (length eta) (warm_damp eta kts) ka
      (as_arrays (repeat 0 (length eta), repeat 0 (length eta), g)).
Proof.
  intros Hk Hnn. unfold warm_step, as_arrays.
  rewrite (warm_update_float eta ka kts g Hk Hnn).
  destruct (warm_update G gauss (length eta) (warm_damp eta kts) ka
              (NdArray (repeat 0 (length eta))) g) as [[a g1]| | |]; simpl; auto.
  now rewrite (warm_update_float eta ka kts g1 Hk Hnn).
Qed.

Lemma iterate_lengths (eta ka : list R) (kts : R) (n : nat) s :
  length ka = length eta -> both_lengths (length eta) s ->
  both_lengths (length eta) (iterate (spec_warm_iter G gauss eta ka kts) n s).
Proof.
  intro Hk. revert s; induction n as [|n IH]; intros s Hs; simpl; auto.
  apply IH. now apply spec_warm_iter_lengths.
Qed.

Lemma repeat_step_arrays (eta ka : list R) (kts : R) (n : nat) s :
  length ka = length eta -> Forall (fun x => 0 <= x) ka ->
  both_lengths (length eta) s ->
  repeat_step (warm_step G gauss (length eta) (warm_damp eta kts) ka) n
    (as_arrays s)
  = Ok (as_arrays (iterate (spec_warm_iter G gauss eta ka kts) n s)).
Proof.
  intros Hk Hnn. revert s; induction n as [|n IH]; intros s Hs; simpl; auto.
  rewrite (warm_step_arrays eta ka kts s Hk Hnn Hs). simpl.
  apply IH. now apply spec_warm_iter_lengths.
Qed.

Lemma zeros_lengths (n : nat) (g : G) :
  both_lengths n (repeat 0 n, repeat 0 n, g).
Proof.
  split; apply repeat_length.
Qed.

Lemma repeat_step_floats (eta ka : list R) (kts : R) (n : nat) (g : G) :
  length ka = length eta -> Forall (fun x => 0 <= x) ka -> (1 <= n)%nat ->
  repeat_step (warm_step G gauss (length eta) (warm_damp eta kts) ka) n
    (PyFloat 0, PyFloat 0, g)
  = Ok (as_arrays (iterate (spec_warm_iter G gauss eta ka kts) n
                     (repeat 0 (length eta), repeat 0 (length eta), g))).
Proof.
  intros Hk Hnn Hn. destruct n as [|n]; [lia|].
  change (repeat_step ?b (S n) ?s) with (s' <- b s ;; repeat_step b n s').
  rewrite (warm_step_floats eta ka kts g Hk Hnn).
  rewrite <- (repeat_step_arrays eta ka kts (S n) _ Hk Hnn (zeros_lengths _ g)).
  reflexivity.
Qed.

Lemma Nwarmup_eq (eta : list R) (kts m : R) :
  py_min eta = Ok m -> m <> 0 -> kts <> 0 ->
  Nwarmup eta kts = Ok (spec_Nwarmup m kts).
Proof.
  intros Hm Hm0 Hk. unfold Nwarmup, spec_Nwarmup. rewrite Hm. simpl.
  rewrite (fdiv_nonzero 1 m Hm0). simpl.
  rewrite fdiv_nonzero by exact Hk. simpl.
  do 3 f_equal. field. auto.
Qed.

Lemma warmup_ok (eta ka : list R) (kts m : R) (g : G) :
  length ka = length eta -> Forall (fun x => 0 <= x) ka ->
  py_min eta = Ok m -> m <> 0 -> kts <> 0 ->
  (1 <= spec_Nwarmup m kts)%Z ->
  warmup G gauss (length eta) eta ka kts g
  = Ok (as_arrays (spec_warmup G gauss eta ka kts m g)).
Proof.
  intros Hk Hnn Hm Hm0 Hkts Hn. unfold warmup, spec_warmup.
  rewrite (Nwarmup_eq eta kts m Hm Hm0 Hkts). simpl.
  apply repeat_step_floats; auto. lia.
Qed.

Lemma spec_warmup_lengths (eta ka : list R) (kts m : R) (g : G) :
  length ka = length eta ->
  both_lengths (length eta) (spec_warmup G gauss eta ka kts m g).
Proof.
  intro Hk. unfold spec_warmup. apply iterate_lengths; auto.
  apply zeros_lengths.
Qed.

End WarmUp.

(** ** Valid damping rates *)

Lemma valid_eta_facts (eta : list R) :
  eta <> [] -> Forall (fun e => 0 < e) eta ->
  exists mx mn kts,
    py_max eta = Ok mx /\ py_min eta = Ok mn /\
    kicktimestep eta = Ok kts /\ kts = 1 / mx / 100 /\
    0 < mn /\ mn <= mx /\ 0 < kts /\
    (100 <= spec_Nwarmup mn kts <= 20000)%Z.
Proof.
  intros Hne Hpos.
  destruct (py_max_spec eta Hne) as (mx & Hmx & Hinx & Hmax).
  destruct (py_min_spec eta Hne) as (mn & Hmn & Hinn & Hmin).
  pose proof (positive_max eta mx Hpos Hinx) as Hx0.
  pose proof (positive_max eta mn Hpos Hinn) as Hn0.
  pose proof (Hmax mn Hinn) as Hle.
  assert (Hk : 0 < 1 / mx / 100).
  { apply Rdiv_lt_0_compat; [|lra]. apply Rdiv_lt_0_compat; lra. }
  exists mx, mn, (1 / mx / 100). repeat split; auto.
  - apply kicktimestep_eq; auto. lra.
  - unfold spec_Nwarmup. apply Z.min_glb; [lia|].
    apply Zfloor_lub.
    replace (1 / (mn * (1 / mx / 100))) with (100 * (mx / mn))
      by (field; split; lra).
    assert (1 <= mx / mn).
    { apply (Rmult_le_reg_r mn); [lra|]. unfold Rdiv.
      rewrite Rmult_assoc, Rinv_l by lra. lra. }
    lra.
  - unfold spec_Nwarmup. apply Z.le_min_l.
Qed.

Lemma np_sqrt_Ok (l r : list R) :
  np_sqrt l = Ok r -> length r = length l /\ Forall (fun x => 0 <= x) r.
Proof.
  revert r; induction l as [|x t IH]; simpl; intros r Hr.
  - inversion Hr. split; [reflexivity|constructor].
  - destruct (Rlt_dec x 0); [discriminate|].
    apply bind_Ok_inv in Hr. destruct Hr as (t' & Ht' & Heq).
    inversion Heq; subst. destruct (IH t' Ht') as [Hl Hn]. split.
    + simpl. now rewrite Hl.
    + constructor; [apply sqrt_pos|exact Hn].
Qed.

Lemma map2_mult_nonneg (xs ys : list R) :
  Forall (fun x => 0 <= x) xs -> Forall (fun x => 0 <= x) ys ->
  Forall (fun x => 0 <= x) (map2 Rmult xs ys).
Proof.
  intro Hx. revert ys. induction Hx as [|a t Ha Ht IH]; intros ys Hy;
    simpl; [constructor|].
  destruct Hy as [|y ys Hy Hys]; constructor; [nra|now apply IH].
Qed.

Lemma kick_amplitude_nonneg (ampl eta : list R) (kts : R) (ka : list R) :
  Forall (fun a => 0 <= a) ampl ->
  kick_amplitude ampl eta kts = Ok ka -> length ampl = length eta ->
  Forall (fun x => 0 <= x) ka.
Proof.
  intros Hampl Hka Hlen. unfold kick_amplitude in Hka.
  apply bind_Ok_inv in Hka. destruct Hka as (r & Hr & Hb).
  destruct (np_sqrt_Ok _ _ Hr) as [Hrl Hrn]. rewrite length_map in Hrl.
  rewrite broadcast_same in Hb by lia. inversion Hb; subst.
  now apply map2_mult_nonneg.
Qed.

Lemma kick_amplitude_length (ampl eta : list R) (kts : R) (ka : list R) :
  kick_amplitude ampl eta kts = Ok ka -> length ampl = length eta ->
  length ka = length eta.
Proof.
  intros Hka Hlen. unfold kick_amplitude in Hka.
  apply bind_Ok_inv in Hka. destruct Hka as (r & Hr & Hb).
  destruct (np_sqrt_Ok _ _ Hr) as [Hrl Hrn]. rewrite length_map in Hrl.
  rewrite broadcast_same in Hb by lia. inversion Hb; subst.
  rewrite map2_length; lia.
Qed.

Lemma kick_amplitude_valid (ampl eta : list R) (kts : R) :
  Forall (fun e => 0 < e) eta -> 0 < kts -> length ampl = length eta ->
  exists ka, kick_amplitude ampl eta kts = Ok ka /\ length ka = length eta.
Proof.
  intros Hpos Hk Hlen.
  assert (Hnn : Forall (fun e => 0 <= kts * e) eta).
  { rewrite Forall_forall in *. intros e He. specialize (Hpos e He). nra. }
  eexists. split; [now apply kick_amplitude_eq|].
  rewrite map2_length; [auto|]. now rewrite !length_map.
Qed.

Section WarmUpClaims.

Variable G : Type.
Variable gauss : G -> R * G.

Lemma warm_step_Ok_scales (n : nat) (damp ka : list R) s r :
  warm_step G gauss n damp ka s = Ok r -> Forall (fun x => 0 <= x) ka.
Proof.
  destruct s as [[a b] g]. unfold warm_step. intro H.
  apply bind_Ok_inv in H. destruct H as ([a' g1] & H & _).
  unfold warm_update in H.
  apply bind_Ok_inv in H. destruct H as (p & _ & H).
  apply bind_Ok_inv in H. destruct H as (nv & H & _).
  now apply normal_vec_Ok_scales in H.
Qed.

Lemma warmup_Ok_scales (n : nat) (eta ka : list R) (kts : R) (g : G) (z : Z) r :
  Nwarmup eta kts = Ok z -> (1 <= z)%Z ->
  warmup G gauss n eta ka kts g = Ok r -> Forall (fun x => 0 <= x) ka.
Proof.
  intros Hz Hz1. unfold warmup. rewrite Hz. simpl.
  destruct (Z.to_nat z) as [|k] eqn:E; [lia|].
  change (repeat_step ?b (S k) ?s) with (s' <- b s ;; repeat_step b k s').
  intro H. apply bind_Ok_inv in H. destruct H as (s' & H & _).
  now apply warm_step_Ok_scales in H.
Qed.


End WarmUpClaims.



(** ** One kick and one sampling step *)

Lemma sum_modes_S (f : nat -> R) (m : nat) :
  sum_modes f (S m) = sum_modes f m + f m.
Proof.
  unfold sum_modes. rewrite seq_S, map_app, fold_right_app. simpl.
  generalize (map f (seq 0 m)). intro l.
  induction l as [|x l IH]; simpl; [ring|]. rewrite IH. ring.
Qed.

Lemma sum_modes_ext (f h : nat -> R) (m : nat) :
  (forall i, (i < m)%nat -> f i = h i) -> sum_modes f m = sum_modes h m.
Proof.
  induction m as [|m IH]; intro H; [reflexivity|].
  rewrite !sum_modes_S. rewrite IH by (intros; apply H; lia).
  now rewrite H by lia.
Qed.

Ltac bind_inv H :=
  repeat match type of H with
  | bind ?c ?k = Ok _ =>
      let x := fresh "x" in
      let Hx := fresh "Hx" in
      apply bind_Ok_inv in H; destruct H as (x & Hx & H)
  | (let (_, _) := ?p in _) = Ok _ => destruct p
  end.

Section MainFacts.

Variable G : Type.
Variable gauss : G -> R * G.
Variables time freq eta ka : list R.
Variable kts : R.
Variables M N : nat.
Hypothesis Hfreq : length freq = M.
Hypothesis Heta : length eta = M.
Hypothesis Hka : length ka = M.
Hypothesis Htime : length time = N.

Lemma normal_std (g : G) :
  normal G gauss 0 1 g = Ok (0 + 1 * fst (gauss g), snd (gauss g)).
Proof.
  unfold normal. destruct (Rlt_dec 1 0); [lra|]. now destruct (gauss g).
Qed.

Lemma kick_kicked (i : nat) (st : state G) :
  wf_state M N st -> (i < M)%nat ->
  kick G gauss eta ka kts i st = Ok (kicked gauss eta ka kts i st).
Proof.
  clear Hfreq Htime. intros (a & b & Ha & Hb & Hla & Hlb & Hl & Hn & Hs) Hi.
  unfold kick, kicked. rewrite Ha, Hb. simpl.
  rewrite !(getitem_lt (next_kicktime st)) by lia. simpl.
  rewrite !(getitem_lt (last_kicktime st)) by lia. simpl.
  rewrite !(getitem_lt eta) by lia. simpl.
  rewrite !(getitem_lt a) by lia. simpl.
  rewrite !(getitem_lt ka) by lia. simpl.
  rewrite normal_std. simpl.
  rewrite setitem_lt by lia. simpl.
  rewrite !(getitem_lt b) by lia. simpl.
  rewrite normal_std. simpl.
  rewrite setitem_lt by lia. simpl.
  rewrite !setitem_lt by lia. simpl. reflexivity.
Qed.

Lemma kicked_wf (i : nat) (st : state G) :
  wf_state M N st -> wf_state M N (kicked gauss eta ka kts i st).
Proof.
  intros (a & b & Ha & Hb & Hla & Hlb & Hl & Hn & Hs).
  unfold kicked. rewrite Ha, Hb. simpl.
  eexists _, _. simpl. repeat split; rewrite ?length_list_set; auto.
Qed.

Lemma sample_sampled (j i : nat) (st : state G) :
  wf_state M N st -> (i < M)%nat -> (j < N)%nat ->
  sample G time freq eta j i st = Ok (sampled time freq eta j i st).
Proof.
  clear Hka. intros (a & b & Ha & Hb & Hla & Hlb & Hl & Hn & Hs) Hi Hj.
  unfold sample, sampled, mode_term. rewrite Ha, Hb. simpl.
  rewrite !(getitem_lt time) by lia. simpl.
  rewrite !(getitem_lt (last_kicktime st)) by lia. simpl.
  rewrite !(getitem_lt eta) by lia. simpl.
  rewrite !(getitem_lt (signal st)) by lia. simpl.
  rewrite !(getitem_lt a) by lia. simpl.
  rewrite !(getitem_lt freq) by lia. simpl.
  rewrite !(getitem_lt b) by lia. simpl.
  rewrite setitem_lt by lia. simpl. reflexivity.
Qed.

Lemma sampled_wf (j i : nat) (st : state G) :
  wf_state M N st -> wf_state M N (sampled time freq eta j i st).
Proof.
  intros (a & b & Ha & Hb & Hla & Hlb & Hl & Hn & Hs).
  exists a, b. simpl. repeat split; rewrite ?length_list_set; auto.
Qed.

(** ** The pending-kick loop *)

Lemma kicked_clocks (i : nat) (st : state G) (t0 t t' : R) :
  wf_state M N st -> (i < M)%nat -> 0 < kts ->
  clocks_ok M kts t0 t st -> t <= t' ->
  nth i (next_kicktime st) 0 <= t' ->
  clocks_ok M kts t0 t' (kicked gauss eta ka kts i st).
Proof.
  intros (a & b & Ha & Hb & Hla & Hlb & Hl & Hn & Hs) Hi Hk Hc Ht Hnk k Hk'.
  destruct (Hc k Hk') as (H1 & H2 & H3). unfold kicked. simpl.
  destruct (Nat.eq_dec i k) as [->|Hne].
  - rewrite !nth_list_set_eq by lia. repeat split; lra.
  - rewrite !nth_list_set_ne by auto. repeat split; lra.
Qed.

Lemma clocks_ok_later (st : state G) (t0 t t' : R) :
  clocks_ok M kts t0 t st -> t <= t' -> clocks_ok M kts t0 t' st.
Proof.
  intros Hc Ht k Hk. destruct (Hc k Hk) as (H1 & H2 & H3). repeat split; lra.
Qed.

Lemma kick_loop_terminates (j i : nat) (t0 : R) :
  (i < M)%nat -> (j < N)%nat -> 0 < kts ->
  forall (fuel : nat) (st : state G) (t : R),
    wf_state M N st -> clocks_ok M kts t0 t st -> t <= nth j time 0 ->
    nth j time 0 < nth i (next_kicktime st) 0 + INR fuel * kts ->
    exists st',
      kick_loop G gauss time eta ka kts fuel j i st = Ok st' /\
      wf_state M N st' /\ clocks_ok M kts t0 (nth j time 0) st' /\
      nth j time 0 < nth i (next_kicktime st') 0 /\
      (forall k, k <> i ->
         nth k (next_kicktime st') 0 = nth k (next_kicktime st) 0) /\
      signal st' = signal st.
Proof.
  intros Hi Hj Hk. induction fuel as [|fuel IH]; intros st t Hwf Hc Ht Hf.
  - simpl in Hf. rewrite Rmult_0_l, Rplus_0_r in Hf.
    exists st. unfold kick_loop.
    destruct Hwf as (a & b & Ha & Hb & Hla & Hlb & Hl & Hn & Hs).
    rewrite (getitem_lt (next_kicktime st)) by lia. simpl.
    rewrite (getitem_lt time) by lia. simpl.
    destruct (Rle_dec _ _); [lra|].
    conj; auto.
    + now exists a, b.
    + apply (clocks_ok_later st t0 t); auto.
  - pose proof Hwf as (a & b & Ha & Hb & Hla & Hlb & Hl & Hn & Hs).
    simpl. rewrite (getitem_lt (next_kicktime st)) by lia. simpl.
    rewrite (getitem_lt time) by lia. simpl.
    destruct (Rle_dec _ _) as [Hle|Hgt].
    + rewrite (kick_kicked i st Hwf Hi). simpl.
      destruct (IH (kicked gauss eta ka kts i st) (nth j time 0))
        as (st' & Hrun & Hwf' & Hc' & Hlt & Hfr & Hsig).
      * now apply kicked_wf.
      * apply (kicked_clocks i st t0 t); auto.
      * lra.
      * unfold kicked. simpl. rewrite nth_list_set_eq by lia.
        rewrite S_INR in Hf. lra.
      * exists st'. conj; auto.
        intros k Hne. rewrite (Hfr k Hne). unfold kicked. simpl.
        now rewrite nth_list_set_ne by auto.
    + exists st. conj; auto.
      * apply (clocks_ok_later st t0 t); auto.
      * lra.
Qed.

(** ** The loops over modes and over output times *)

Lemma for_range_snoc (body : nat -> state G -> outcome (state G))
  (n start : nat) (st : state G) :
  for_range G body start (S n) st
  = st' <- for_range G body start n st ;; body (start + n)%nat st'.
Proof.
  revert start st; induction n as [|n IH]; intros start st.
  - simpl. rewrite Nat.add_0_r. now destruct (body start st).
  - change (for_range G body start (S (S n)) st)
      with (st' <- body start st ;; for_range G body (S start) (S n) st').
    change (for_range G body start (S n) st)
      with (st' <- body start st ;; for_range G body (S start) n st').
    destruct (body start st) as [s| | |]; try reflexivity.
    cbn [bind]. rewrite IH. now rewrite Nat.add_succ_r.
Qed.

Lemma modes_prefix (fuel j : nat) (t0 t : R) (st : state G) :
  (j < N)%nat -> 0 < kts ->
  wf_state M N st -> clocks_ok M kts t0 t st -> t <= nth j time 0 ->
  nth j time 0 - t0 < INR fuel * kts ->
  forall m, (m <= M)%nat ->
  exists st',
    for_range G (mode_step G gauss time freq eta ka kts fuel j) 0 m st = Ok st' /\
    wf_state M N st' /\ clocks_ok M kts t0 (nth j time 0) st' /\
    caught_up m (nth j time 0) st' /\
    (forall j', j' <> j -> nth j' (signal st') 0 = nth j' (signal st) 0) /\
    nth j (signal st') 0
    = nth j (signal st) 0
      + sum_modes
          (fun i =>
             match
               (s1 <- for_range G (mode_step G gauss time freq eta ka kts fuel j)
                        0 i st ;;
                kick_loop G gauss time eta ka kts fuel j i s1)
             with
             | Ok s => mode_term time freq eta s j i
             | _ => 0
             end) m.
Proof.
  intros Hj Hk Hwf Hc Ht Hfuel. induction m as [|m IH]; intro Hm.
  - exists st. simpl. conj; auto.
    + apply (clocks_ok_later st t0 t); auto.
    + intros k Hk'. lia.
    + unfold sum_modes. simpl. ring.
  - destruct (IH ltac:(lia)) as (sm & Hrun & Hwfm & Hcm & Hup & Hoth & Hsum).
    rewrite for_range_snoc, Hrun. simpl. unfold mode_step at 1.
    destruct (kick_loop_terminates j m t0 ltac:(lia) Hj Hk fuel sm
                (nth j time 0) Hwfm Hcm ltac:(lra))
      as (s1 & Hloop & Hwf1 & Hc1 & Hlt & Hfr & Hsig).
    { destruct (Hcm m ltac:(lia)) as (_ & H2 & _). lra. }
    rewrite Hloop. simpl.
    rewrite (sample_sampled j m s1 Hwf1 ltac:(lia) Hj).
    exists (sampled time freq eta j m s1). conj; auto.
    + now apply sampled_wf.
    + intros k Hk'. unfold sampled; simpl.
      destruct (Nat.eq_dec k m) as [->|Hne]; [exact Hlt|].
      rewrite (Hfr k Hne). apply Hup. lia.
    + intros j' Hne. unfold sampled; simpl.
      rewrite nth_list_set_ne by auto. rewrite Hsig. now apply Hoth.
    + destruct Hwf1 as (a & b & _ & _ & _ & _ & _ & _ & Hs1).
      unfold sampled; simpl. rewrite nth_list_set_eq by lia.
      rewrite sum_modes_S, Hrun. simpl. rewrite Hloop, Hsig, Hsum. ring.
Qed.

Lemma main_pass_S (fuel n : nat) (st : state G) :
  main_pass G gauss time freq eta ka kts fuel (S n) st
  = st' <- main_pass G gauss time freq eta ka kts fuel n st ;;
    time_step G gauss time freq eta ka kts fuel n st'.
Proof.
  unfold main_pass. now rewrite for_range_snoc.
Qed.

Lemma main_pass_facts (fuel : nat) (t0 : R) (st0 : state G) :
  0 < kts -> wf_state M N st0 -> clocks_ok M kts t0 t0 st0 ->
  t0 = nth 0 time 0 ->
  (forall j k, (j <= k < N)%nat -> nth j time 0 <= nth k time 0) ->
  (forall j, (j < N)%nat -> nth j time 0 - t0 < INR fuel * kts) ->
  (forall j, (j < N)%nat -> nth j (signal st0) 0 = 0) ->
  forall n, (n <= N)%nat ->
  exists st,
    main_pass G gauss time freq eta ka kts fuel n st0 = Ok st /\
    wf_state M N st /\
    clocks_ok M kts t0 (nth (pred n) time 0) st /\
    ((0 < n)%nat -> caught_up M (nth (pred n) time 0) st) /\
    (forall j, (j < n)%nat ->
       nth j (signal st) 0
       = sum_modes
           (fun i =>
              match pre_sample G gauss time freq eta ka kts fuel st0 j i with
              | Ok s => mode_term time freq eta s j i
              | _ => 0
              end) M) /\
    (forall j, (n <= j < N)%nat -> nth j (signal st) 0 = 0).
Proof.
  intros Hk Hwf Hc Ht0 Hmono Hfuel Hzero. induction n as [|n IH]; intro Hn.
  - exists st0. simpl. conj; auto.
    + now rewrite <- Ht0.
    + lia.
    + intros j Hj. lia.
    + intros j Hj. apply Hzero. lia.
  - destruct (IH ltac:(lia)) as (sn & Hrun & Hwfn & Hcn & Hupn & Hdone & Hrest).
    rewrite main_pass_S, Hrun. simpl. unfold time_step. rewrite Hfreq.
    destruct (modes_prefix fuel n t0 (nth (pred n) time 0) sn
                ltac:(lia) Hk Hwfn Hcn
                ltac:(apply Hmono; lia) ltac:(apply Hfuel; lia) M (le_n M))
      as (s' & Hrun' & Hwf' & Hc' & Hup' & Hoth & Hsum).
    exists s'. simpl. conj; auto.
    + intros j Hj. destruct (Nat.eq_dec j n) as [->|Hne].
      * rewrite Hsum, (Hrest n) by lia. rewrite Rplus_0_l.
        apply sum_modes_ext. intros i Hi. unfold pre_sample.
        rewrite Hrun. reflexivity.
      * rewrite (Hoth j Hne). apply Hdone. lia.
    + intros j Hj. rewrite (Hoth j) by lia. apply Hrest. lia.
Qed.

(** The state right before sampling mode [i] at output index [j]. *)
Lemma pre_sample_facts (fuel : nat) (t0 : R) (st0 : state G) :
  0 < kts -> wf_state M N st0 -> clocks_ok M kts t0 t0 st0 ->
  t0 = nth 0 time 0 ->
  (forall j k, (j <= k < N)%nat -> nth j time 0 <= nth k time 0) ->
  (forall j, (j < N)%nat -> nth j time 0 - t0 < INR fuel * kts) ->
  (forall j, (j < N)%nat -> nth j (signal st0) 0 = 0) ->
  forall j i, (j < N)%nat -> (i < M)%nat ->
  exists st,
    pre_sample G gauss time freq eta ka kts fuel st0 j i = Ok st /\
    wf_state M N st /\ clock_inv kts (nth j time 0) i st.
Proof.
  intros Hk Hwf Hc Ht0 Hmono Hfuel Hzero j i Hj Hi.
  destruct (main_pass_facts fuel t0 st0 Hk Hwf Hc Ht0 Hmono Hfuel Hzero j
              ltac:(lia)) as (sj & Hrun & Hwfj & Hcj & _).
  destruct (modes_prefix fuel j t0 (nth (pred j) time 0) sj
              Hj Hk Hwfj Hcj
              ltac:(apply Hmono; lia) ltac:(apply Hfuel; lia) i ltac:(lia))
    as (si & Hruni & Hwfi & Hci & _).
  destruct (kick_loop_terminates j i t0 Hi Hj Hk fuel si
              (nth j time 0) Hwfi Hci ltac:(lra))
    as (s1 & Hloop & Hwf1 & Hc1 & Hlt & _).
  { destruct (Hci i Hi) as (_ & H2 & _). specialize (Hfuel j Hj). lra. }
  exists s1. unfold pre_sample. rewrite Hrun. simpl. rewrite Hruni. simpl.
  conj; auto.
  destruct (Hc1 i Hi) as (H1 & H2 & H3).
  pose proof Hwf1 as (a & b & _ & _ & _ & _ & Hl & Hnx & _).
  exists (nth i (last_kicktime s1) 0), (nth i (next_kicktime s1) 0).
  conj; try (apply nth_error_nth_lt; lia); lra.
Qed.

End MainFacts.

(** ** Fuel *)

Lemma nondecreasing_nth (time : list R) :
  nondecreasing time ->
  forall j k, (j <= k < length time)%nat -> nth j time 0 <= nth k time 0.
Proof.
  intros Hnd j k [Hjk Hk]. induction k as [|k IH].
  - replace j with 0%nat by lia. lra.
  - destruct (Nat.eq_dec j (S k)) as [->|Hne]; [lra|].
    apply Rle_trans with (nth k time 0); [apply IH; lia|].
    apply (Hnd k); apply nth_error_nth_lt; lia.
Qed.

Lemma budget_enough (time : list R) (kts : R) (fuel : nat) :
  0 < kts -> nondecreasing time -> (kick_budget time kts <= fuel)%nat ->
  forall j, (j < length time)%nat ->
    nth j time 0 - nth 0 time 0 < INR fuel * kts.
Proof.
  intros Hk Hnd Hfuel j Hj. unfold kick_budget in Hfuel.
  set (span := nth (length time - 1) time 0 - nth 0 time 0) in *.
  assert (Hspan : 0 <= span).
  { unfold span. pose proof (nondecreasing_nth time Hnd 0 (length time - 1)
                               ltac:(lia)). lra. }
  assert (Hj' : nth j time 0 - nth 0 time 0 <= span).
  { unfold span. pose proof (nondecreasing_nth time Hnd j (length time - 1)
                               ltac:(lia)). lra. }
  assert (Hq : 0 <= span / kts).
  { apply Rmult_le_pos; [exact Hspan|]. left. now apply Rinv_0_lt_compat. }
  pose proof (Zfloor_bound (span / kts)) as [Hlo Hhi].
  assert (Hz : (0 <= Zfloor (span / kts))%Z).
  { apply Zfloor_lub. simpl. exact Hq. }
  assert (Hb : span / kts < INR fuel).
  { apply Rlt_le_trans
      with (INR (Z.to_nat (Zfloor (span / kts) + 1))); [|now apply le_INR].
    rewrite INR_IZR_INZ, Z2Nat.id by lia. rewrite plus_IZR. exact Hhi. }
  apply Rle_lt_trans with span; [exact Hj'|].
  apply (Rmult_lt_compat_r kts) in Hb; [|exact Hk].
  unfold Rdiv in Hb. rewrite Rmult_assoc, Rinv_l, Rmult_1_r in Hb by lra.
  exact Hb.
Qed.

(** ** Entry of the main pass *)

Section Runs.

Variable G : Type.
Variable gauss : G -> R * G.
Variable unif : G -> R * G.
Hypothesis Hunif : forall g, 0 <= fst (unif g) < 1.

Lemma uniform_props (low high : R) (n : nat) (g : G) :
  low <= high ->
  length (fst (uniform G unif low high n g)) = n /\
  forall k, (k < n)%nat ->
    low <= nth k (fst (uniform G unif low high n g)) 0 <= high.
Proof.
  intro Hlh. revert g; induction n as [|n IH]; intro g; simpl.
  - split; [reflexivity|]. intros k Hk. lia.
  - pose proof (Hunif g) as Hu. destruct (unif g) as [u g1]. simpl in Hu.
    specialize (IH g1). destruct (uniform G unif low high n g1) as [rest g2].
    simpl in *. destruct IH as [Hl Hr]. split; [now rewrite Hl|].
    intros [|k] Hk; [nra|]. apply Hr. lia.
Qed.

Lemma nth_shift (l : list R) (kts : R) (k : nat) :
  (k < length l)%nat ->
  nth k (map (fun x => x + kts) l) 0 = nth k l 0 + kts.
Proof.
  intro Hk.
  rewrite (nth_indep _ 0 (0 + kts)) by (rewrite length_map; lia).
  now rewrite (map_nth (fun x => x + kts)).
Qed.

Lemma nth_zeros (n j : nat) : nth j (repeat 0 n) 0 = 0.
Proof.
  revert j; induction n as [|n IH]; intros [|j]; simpl; auto.
Qed.

Lemma setup_ok (g : G) (time freq ampl eta : list R) (kts : R)
  (ka : list R) :
  well_shaped time freq ampl eta ->
  kicktimestep eta = Ok kts -> kick_amplitude ampl eta kts = Ok ka ->
  Forall (fun x => 0 <= x) ka ->
  0 < kts /\ length ka = length freq /\
  exists st0,
    setup G gauss unif g time freq ampl eta = Ok (kts, ka, st0) /\
    wf_state (length freq) (length time) st0 /\
    clocks_ok (length freq) kts (nth 0 time 0) (nth 0 time 0) st0 /\
    forall j, (j < length time)%nat -> nth j (signal st0) 0 = 0.
Proof.
  intros (Hne & Hnd & Hene & Hpos & Hf & Ha) Hkts Hka Hnn.
  destruct (valid_eta_facts eta Hene Hpos)
    as (mx & mn & kts' & Hmx & Hmn & Hkts' & Hk & Hmn0 & Hle & Hk0 & Hn).
  assert (Hsame : kts = kts') by congruence. subst kts. rename kts' into kts.
  pose proof (kick_amplitude_length ampl eta kts ka Hka Ha) as Hkl.
  assert (Hw : warmup G gauss (length freq) eta ka kts g
               = Ok (as_arrays (spec_warmup G gauss eta ka kts mn g))).
  { rewrite Hf. apply warmup_ok; auto; try lra. lia. }
  pose proof (spec_warmup_lengths G gauss eta ka kts mn g Hkl) as [Hl1 Hl2].
  destruct (spec_warmup G gauss eta ka kts mn g) as [[a b] g1]. simpl in *.
  pose proof (uniform_props (nth 0 time 0 - kts) (nth 0 time 0)
                (length freq) g1 ltac:(lra)) as [Hul Hur].
  destruct (uniform G unif (nth 0 time 0 - kts) (nth 0 time 0)
              (length freq) g1) as [last g2] eqn:Hu. simpl in *.
  split; [exact Hk0|]. split; [lia|].
  exists (mkState (NdArray a) (NdArray b) last (map (fun l => l + kts) last)
            (repeat 0 (length time)) g2).
  conj.
  - unfold setup. rewrite Hkts. simpl. rewrite Hka. simpl. rewrite Hw. simpl.
    unfold init_state. rewrite (getitem_lt time 0).
    + simpl. rewrite Hu. reflexivity.
    + destruct time; [congruence|simpl; lia].
  - exists a, b. simpl. conj; auto; try lia.
    + now rewrite length_map.
    + apply repeat_length.
  - intros k Hk'. simpl. rewrite nth_shift by lia.
    specialize (Hur k Hk'). conj; lra.
  - intros j Hj. simpl. apply nth_zeros.
Qed.

(** When the run reaches the main pass, no kick amplitude was negative. *)
Lemma setup_Ok_inv (g : G) (time freq ampl eta : list R) (kts : R)
  (ka : list R) (st0 : state G) :
  well_shaped time freq ampl eta ->
  setup G gauss unif g time freq ampl eta = Ok (kts, ka, st0) ->
  kicktimestep eta = Ok kts /\ kick_amplitude ampl eta kts = Ok ka /\
  Forall (fun x => 0 <= x) ka.
Proof.
  intros (Hne & Hnd & Hene & Hpos & Hf & Ha) H.
  destruct (valid_eta_facts eta Hene Hpos)
    as (mx & mn & kts' & Hmx & Hmn & Hkts' & Hk & Hmn0 & Hle & Hk0 & Hn).
  unfold setup in H. rewrite Hkts' in H. simpl in H.
  destruct (kick_amplitude ampl eta kts') as [ka'| | |] eqn:Hka;
    simpl in H; try discriminate.
  destruct (warmup G gauss (length freq) eta ka' kts' g)
    as [[[asin acos] g1]| | |] eqn:Hw; simpl in H; try discriminate.
  destruct (init_state G unif time freq kts' asin acos g1) as [st| | |];
    simpl in H; try discriminate.
  injection H as <- <- <-. conj; auto.
  apply (warmup_Ok_scales G gauss _ _ _ _ _ _ _
           (Nwarmup_eq eta kts' mn Hmn ltac:(lra) ltac:(lra)) ltac:(lia) Hw).
Qed.

(** A negative kick amplitude is rejected by the first draw of the
    warm-up. *)
Lemma setup_rejects (g : G) (time freq ampl eta : list R) (kts : R)
  (ka : list R) :
  well_shaped time freq ampl eta ->
  kicktimestep eta = Ok kts -> kick_amplitude ampl eta kts = Ok ka ->
  existsb (fun s => if Rlt_dec s 0 then true else false) ka = true ->
  setup G gauss unif g time freq ampl eta = Raise ValueError.
Proof.
  intros (Hne & Hnd & Hene & Hpos & Hf & Ha) Hkts Hka Hneg.
  destruct (valid_eta_facts eta Hene Hpos)
    as (mx & mn & kts' & Hmx & Hmn & Hkts' & Hk & Hmn0 & Hle & Hk0 & Hn).
  assert (Hsame : kts = kts') by congruence. subst kts. rename kts' into kts.
  unfold setup. rewrite Hkts. simpl. rewrite Hka. simpl.
  unfold warmup. rewrite (Nwarmup_eq eta kts mn Hmn) by lra. simpl.
  destruct (Z.to_nat (spec_Nwarmup mn kts)) as [|k] eqn:E; [lia|].
  cbn [repeat_step]. unfold warm_step at 1, warm_update at 1.
  cbn [np_binop bind]. unfold normal_vec. rewrite Hneg. reflexivity.
Qed.

End Runs.

(** ** More fuel changes nothing *)

Section Fuel.

Variable G : Type.
Variable gauss : G -> R * G.
Variable unif : G -> R * G.
Variables time freq eta ka : list R.
Variable kts : R.

Lemma kick_loop_more_fuel (j i : nat) :
  forall (fuel fuel' : nat) (st s : state G),
    kick_loop G gauss time eta ka kts fuel j i st = Ok s ->
    (fuel <= fuel')%nat ->
    kick_loop G gauss time eta ka kts fuel' j i st = Ok s.
Proof.
  induction fuel as [|fuel IH]; intros fuel' st s H Hle.
  - destruct fuel'; [exact H|]. simpl in *.
    destruct (getitem (next_kicktime st) i); simpl in *; try discriminate.
    destruct (getitem time j); simpl in *; try discriminate.
    destruct (Rle_dec a a0); [discriminate|exact H].
  - destruct fuel'; [lia|]. simpl in *.
    destruct (getitem (next_kicktime st) i); simpl in *; try discriminate.
    destruct (getitem time j); simpl in *; try discriminate.
    destruct (Rle_dec a a0); [|exact H].
    destruct (kick G gauss eta ka kts i st); simpl in *; try discriminate.
    apply IH; [exact H|lia].
Qed.

Lemma for_range_mono (body body' : nat -> state G -> outcome (state G)) :
  (forall k st s, body k st = Ok s -> body' k st = Ok s) ->
  forall n start st s,
    for_range G body start n st = Ok s -> for_range G body' start n st = Ok s.
Proof.
  intro Hb. induction n as [|n IH]; intros start st s H; simpl in *; auto.
  apply bind_Ok_inv in H. destruct H as (s1 & H1 & H2).
  rewrite (Hb _ _ _ H1). simpl. now apply IH.
Qed.

Lemma main_pass_more_fuel (fuel fuel' n : nat) (st s : state G) :
  main_pass G gauss time freq eta ka kts fuel n st = Ok s ->
  (fuel <= fuel')%nat ->
  main_pass G gauss time freq eta ka kts fuel' n st = Ok s.
Proof.
  intros H Hle. unfold main_pass in *. revert H. apply for_range_mono.
  intros j st1 s1. unfold time_step. apply for_range_mono.
  intros i st2 s2. unfold mode_step. intro H.
  apply bind_Ok_inv in H. destruct H as (s3 & H3 & H4).
  now rewrite (kick_loop_more_fuel j i fuel fuel' st2 s3 H3 Hle).
Qed.

End Fuel.

(** ** Whole runs on well-shaped inputs *)

Section RunClaims.

Variable G : Type.
Variable gauss : G -> R * G.
Variable unif : G -> R * G.
Hypothesis Hunif : forall g, 0 <= fst (unif g) < 1.

(** Every prefix of the main pass and every pending-kick loop of a run
    that has reached the main pass. *)
Lemma run_facts (g : G) (time freq ampl eta : list R) (kts : R)
  (ka : list R) (st0 : state G) (fuel : nat) :
  well_shaped time freq ampl eta ->
  setup G gauss unif g time freq ampl eta = Ok (kts, ka, st0) ->
  (kick_budget time kts <= fuel)%nat ->
  (forall n, (n <= length time)%nat ->
     exists st,
       main_pass G gauss time freq eta ka kts fuel n st0 = Ok st /\
       wf_state (length freq) (length time) st /\
       clocks_ok (length freq) kts (nth 0 time 0) (nth (pred n) time 0) st /\
       ((0 < n)%nat -> caught_up (length freq) (nth (pred n) time 0) st) /\
       (forall j, (j < n)%nat ->
          nth j (signal st) 0
          = sum_modes
              (fun i =>
                 match pre_sample G gauss time freq eta ka kts fuel st0 j i with
                 | Ok s => mode_term time freq eta s j i
                 | _ => 0
                 end) (length freq)) /\
       (forall j, (n <= j < length time)%nat -> nth j (signal st) 0 = 0)) /\
  (forall j i, (j < length time)%nat -> (i < length freq)%nat ->
     exists st,
       pre_sample G gauss time freq eta ka kts fuel st0 j i = Ok st /\
       wf_state (length freq) (length time) st /\
       clock_inv kts (nth j time 0) i st).
Proof.
  intros Hv Hsetup Hfuel.
  destruct (setup_Ok_inv G gauss unif g time freq ampl eta kts ka st0
              Hv Hsetup) as (Hkts & Hka & Hnn).
  destruct (setup_ok G gauss unif Hunif g time freq ampl eta kts ka
              Hv Hkts Hka Hnn)
    as (Hk0 & Hkl & st0' & Hsetup' & Hwf & Hc & Hz).
  assert (st0' = st0) by congruence. subst st0'.
  destruct Hv as (Hne & Hnd & Hene & Hpos & Hf & Ha).
  pose proof (budget_enough time kts fuel Hk0 Hnd Hfuel) as Hb.
  split.
  - apply (main_pass_facts G gauss time freq eta ka kts
             (length freq) (length time) eq_refl (eq_sym Hf) Hkl eq_refl
             fuel (nth 0 time 0) st0 Hk0 Hwf Hc eq_refl
             (nondecreasing_nth time Hnd) Hb Hz).
  - apply (pre_sample_facts G gauss time freq eta ka kts
             (length freq) (length time) eq_refl (eq_sym Hf) Hkl eq_refl
             fuel (nth 0 time 0) st0 Hk0 Hwf Hc eq_refl
             (nondecreasing_nth time Hnd) Hb Hz).
Qed.

Lemma kick_amplitudes_of_valid (ampl eta : list R) :
  eta <> [] -> Forall (fun e => 0 < e) eta -> length ampl = length eta ->
  exists kts n ka,
    kicktimestep eta = Ok kts /\ 0 < kts /\
    Nwarmup eta kts = Ok n /\ (n <= 20000)%Z /\
    kick_amplitude ampl eta kts = Ok ka /\
    (Forall (fun a => 0 <= a) ampl -> Forall (fun x => 0 <= x) ka).
Proof.
  intros Hene Hpos Ha.
  destruct (valid_eta_facts eta Hene Hpos)
    as (mx & mn & kts & Hmx & Hmn & Hkts & Hk & Hmn0 & Hle & Hk0 & Hn).
  destruct (kick_amplitude_valid ampl eta kts Hpos Hk0 Ha) as (ka & Hka & Hkl).
  exists kts, (spec_Nwarmup mn kts), ka. conj; auto.
  - apply Nwarmup_eq; auto; lra.
  - lia.
  - intro Hampl. now apply (kick_amplitude_nonneg ampl eta kts ka Hampl Hka Ha).
Qed.

Lemma shaped_run (g : G) (time freq ampl eta : list R) :
  well_shaped time freq ampl eta ->
  exists kts n o,
    kicktimestep eta = Ok kts /\ 0 < kts /\
    Nwarmup eta kts = Ok n /\ (n <= 20000)%Z /\
    (forall fuel, (kick_budget time kts <= fuel)%nat ->
       solarosc G gauss unif fuel g time freq ampl eta = o) /\
    ((exists s, o = Ok s /\ length s = length time) \/ o = Raise ValueError) /\
    (Forall (fun a => 0 <= a) ampl ->
     exists s, o = Ok s /\ length s = length time).
Proof.
  intro Hv. pose proof Hv as (Hne & Hnd & Hene & Hpos & Hf & Ha).
  destruct (kick_amplitudes_of_valid ampl eta Hene Hpos Ha)
    as (kts & n & ka & Hkts & Hk0 & HN & Hn & Hka & Hsign).
  exists kts, n.
  destruct (existsb (fun s => if Rlt_dec s 0 then true else false) ka)
    eqn:Hneg.
  - exists (Raise ValueError). conj; auto.
    + intros fuel _. unfold solarosc, run_upto.
      now rewrite (setup_rejects G gauss unif g time freq ampl eta kts ka
                     Hv Hkts Hka Hneg).
    + intro Hampl. apply Hsign in Hampl.
      rewrite (scales_accepted ka Hampl) in Hneg. discriminate.
  - apply scales_accepted_inv in Hneg.
    destruct (setup_ok G gauss unif Hunif g time freq ampl eta kts ka
                Hv Hkts Hka Hneg)
      as (_ & Hkl & st0 & Hsetup & _).
    destruct (run_facts g time freq ampl eta kts ka st0
                (kick_budget time kts) Hv Hsetup (le_n _)) as [Hmain _].
    destruct (Hmain (length time) (le_n _)) as (st & Hrun & Hwfs & _).
    assert (Hlen : length (signal st) = length time)
      by now destruct Hwfs as (a & b & _ & _ & _ & _ & _ & _ & Hs).
    exists (Ok (signal st)). conj; auto.
    + intros fuel Hfuel. unfold solarosc, run_upto. rewrite Hsetup. simpl.
      now rewrite (main_pass_more_fuel G gauss time freq eta ka kts
                     _ fuel _ st0 st Hrun Hfuel).
    + left. now exists (signal st).
    + intros _. now exists (signal st).
Qed.

Lemma reaches_main_pass (g : G) (time freq ampl eta : list R) (kts : R) :
  well_shaped time freq ampl eta -> kicktimestep eta = Ok kts ->
  Forall (fun a => 0 <= a) ampl ->
  exists ka st0, setup G gauss unif g time freq ampl eta = Ok (kts, ka, st0).
Proof.
  intros Hv Hkts Hampl. pose proof Hv as (Hne & Hnd & Hene & Hpos & Hf & Ha).
  destruct (kick_amplitudes_of_valid ampl eta Hene Hpos Ha)
    as (kts' & n & ka & Hkts' & Hk0 & HN & Hn & Hka & Hsign).
  assert (Hsame : kts = kts') by congruence. subst kts. rename kts' into kts.
  destruct (setup_ok G gauss unif Hunif g time freq ampl eta kts ka
              Hv Hkts Hka (Hsign Hampl))
    as (_ & Hkl & st0 & Hsetup & _).
  now exists ka, st0.
Qed.


End RunClaims.

(** ** The sampling step *)

Ltac step_bind :=
  match goal with
  | |- context [let (_, _) := ?p in _] => destruct p; simpl
  | |- context [bind ?c _] =>
      lazymatch c with
      | bind _ _ => fail
      | (let (_, _) := _ in _) => fail
      | _ => destruct c; simpl; try reflexivity
      end
  end.

Section Sampling.

Variable G : Type.
Variable gauss : G -> R * G.
Variables time freq eta ka : list R.
Variable kts : R.

Lemma kick_set_signal (sig : list R) (i : nat) (st : state G) :
  kick G gauss eta ka kts i (set_signal sig st)
  = s <- kick G gauss eta ka kts i st ;; Ok (set_signal sig s).
Proof.
  unfold kick, set_signal. simpl. repeat step_bind.
Qed.

Lemma kick_loop_set_signal (sig : list R) (j i : nat) :
  forall (fuel : nat) (st : state G),
    kick_loop G gauss time eta ka kts fuel j i (set_signal sig st)
    = s <- kick_loop G gauss time eta ka kts fuel j i st ;;
      Ok (set_signal sig s).
Proof.
  induction fuel as [|fuel IH]; intro st.
  - simpl. destruct (getitem (next_kicktime st) i); simpl; auto.
    destruct (getitem time j); simpl; auto.
    now destruct (Rle_dec a a0).
  - simpl. destruct (getitem (next_kicktime st) i); simpl; auto.
    destruct (getitem time j); simpl; auto.
    destruct (Rle_dec a a0); [|reflexivity].
    change (mkState (amplsin st) (amplcos st) (last_kicktime st)
              (next_kicktime st) sig (gen st)) with (set_signal sig st).
    rewrite kick_set_signal.
    destruct (kick G gauss eta ka kts i st); simpl; auto.
Qed.

(** C8.  A sampling step that returns has changed the signal at index
    [j] only: the quadrature components, both kick times and the random
    generator are what they were, the signal keeps its other entries,
    and any later pending-kick loop runs from the sampled state exactly
    as it would from the state before sampling. *)
Theorem sample_frame (j i : nat) (st st' : state G) :
  sample G time freq eta j i st = Ok st' ->
  amplsin st' = amplsin st /\ amplcos st' = amplcos st /\
  last_kicktime st' = last_kicktime st /\
  next_kicktime st' = next_kicktime st /\
  gen st' = gen st /\
  signal st'
  = list_set (signal st) j
      (nth j (signal st) 0 + mode_term time freq eta st j i) /\
  (forall k, k <> j -> nth_error (signal st') k = nth_error (signal st) k) /\
  forall fuel j' i',
    kick_loop G gauss time eta ka kts fuel j' i' st'
    = s <- kick_loop G gauss time eta ka kts fuel j' i' st ;;
      Ok (set_signal (signal st') s).
Proof.
  intro H.
  assert (Hlt : forall l k v, getitem l k = Ok v -> v = nth k l 0).
  { intros l k v Hg. unfold getitem in Hg.
    destruct (nth_error l k) eqn:E; [|discriminate].
    injection Hg as <-. symmetry. now apply nth_error_nth. }
  assert (Hpy : forall a k v, py_getitem a k = Ok v -> v = nth k (entries a) 0).
  { intros [y|l] k v Hg; simpl in Hg; [discriminate|]. now apply Hlt. }
  unfold sample in H. bind_inv H. injection H as <-. simpl.
  repeat match goal with
  | Hg : getitem _ _ = Ok _ |- _ => apply Hlt in Hg; subst
  | Hg : py_getitem _ _ = Ok _ |- _ => apply Hpy in Hg; subst
  end.
  match goal with
  | Hs : setitem _ _ _ = Ok ?sig |- _ =>
      assert (Hsig : sig = list_set (signal st) j
                (nth j (signal st) 0 + mode_term time freq eta st j i));
      [unfold setitem in Hs;
       destruct (j <? length (signal st))%nat; [|discriminate];
       now injection Hs as <-|]
  end.
  conj; auto.
  - intros k Hk. rewrite Hsig. now apply nth_error_list_set_ne.
  - intros fuel j' i'.
    match goal with
    | |- context [mkState _ _ _ _ ?sig _] =>
        change (mkState (amplsin st) (amplcos st) (last_kicktime st)
                  (next_kicktime st) sig (gen st)) with (set_signal sig st)
    end.
    apply kick_loop_set_signal.
Qed.

End Sampling.

Lemma sample_frame_witness :
  let st := mkState (NdArray [3]) (NdArray [4]) [0] [2] [0] 0%nat in
  exists st',
    sample nat [1] [23] [1] 0 0 st = Ok st' /\
    amplsin st' = amplsin st /\ amplcos st' = amplcos st /\
    last_kicktime st' = last_kicktime st /\
    next_kicktime st' = next_kicktime st /\
    gen st' = gen st /\
    signal st'
    = list_set (signal st) 0
        (nth 0 (signal st) 0 + mode_term [1] [23] [1] st 0 0) /\
    (forall k, k <> 0%nat ->
       nth_error (signal st') k = nth_error (signal st) k) /\
    forall fuel j' i',
      kick_loop nat demo_gauss [1] [1] [5] 7 fuel j' i' st'
      = s <- kick_loop nat demo_gauss [1] [1] [5] 7 fuel j' i' st ;;
        Ok (set_signal (signal st') s).
Proof.
  intro st. eexists. split; [reflexivity|].
  apply (sample_frame nat demo_gauss [1] [23] [1] [5] 7 0 0 st).
  reflexivity.
Defined.

(** ** Degenerate inputs *)

Section Degenerate.

Variable G : Type.
Variable gauss : G -> R * G.
Variable unif : G -> R * G.




End Degenerate.



(** ** Negative damping rates *)


Section NegativeEta.

Variable G : Type.
Variable gauss : G -> R * G.
Variable unif : G -> R * G.
Hypothesis Hunif : forall g, 0 <= fst (unif g) < 1.








End NegativeEta.


Lemma demo_unif_range (g : nat) : 0 <= fst (demo_unif g) < 1.
Proof.
  simpl. lra.
Qed.


(** ** Scaling the amplitudes *)

Section Scaling.

Variable G : Type.
Variable gauss : G -> R * G.
Variable unif : G -> R * G.
Variable c : R.






Section ScaledPass.

Variables time freq eta ka : list R.
Variable kts : R.






End ScaledPass.

Hypothesis Hc : 0 <= c.


















End Scaling.

(** ** Concrete runs *)

Ltac demo_shape :=
  unfold well_shaped; conj;
  try discriminate; try reflexivity; try (repeat constructor; lra);
  try (intros [|[|j]] a b Ha Hb; simpl in *; try discriminate;
       injection Ha as <-; injection Hb as <-; lra).



(** * Further properties of [solarosc] *)

(** ** The warm-up count and the damping per kick *)



(** ** Amplitudes and shapes that are rejected or broadcast *)

Lemma broadcast_mismatch {A : Type} (f : R -> R -> A) (xs ys : list R) :
  length xs <> length ys -> length xs <> 1%nat -> length ys <> 1%nat ->
  broadcast f xs ys = Raise ValueError.
Proof.
  intros Hd Hx Hy. unfold broadcast.
  destruct (length xs =? length ys)%nat eqn:E.
  - apply Nat.eqb_eq in E. contradiction.
  - destruct xs as [|x [|x' xs]], ys as [|y [|y' ys]]; simpl in *;
      try reflexivity; congruence.
Qed.


Section Rejections.

Variable G : Type.
Variable gauss : G -> R * G.
Variable unif : G -> R * G.


(** X4.  When [ampl] and [eta] differ in length and neither has exactly
    one entry, the run raises [ValueError] at the derivation of the kick
    amplitudes (line 97), before any random draw. *)
Theorem amplitude_shape_error (fuel : nat) (g : G)
  (time freq ampl eta : list R) :
  eta <> [] -> Forall (fun e => 0 < e) eta ->
  length ampl <> length eta ->
  length ampl <> 1%nat -> length eta <> 1%nat ->
  solarosc G gauss unif fuel g time freq ampl eta = Raise ValueError.
Proof.
  intros Hene Hpos Hd Ha1 He1.
  destruct (valid_eta_facts eta Hene Hpos)
    as (mx & mn & kts & Hmx & Hmn & Hkts & Hk & Hmn0 & Hle & Hk0 & Hn).
  unfold solarosc, run_upto, setup. rewrite Hkts. simpl.
  unfold kick_amplitude. rewrite np_sqrt_nonneg.
  - simpl. rewrite broadcast_mismatch; auto; now rewrite !length_map.
  - apply Forall_map. rewrite Forall_forall in *.
    intros e He. specialize (Hpos e He). nra.
Qed.


Lemma map2_repeat (a : R) (r : list R) :
  map2 Rmult (repeat a (length r)) r = map (Rmult a) r.
Proof.
  induction r as [|y r IH]; simpl; [reflexivity|]. now rewrite IH.
Qed.

Lemma kick_amplitude_single (a : R) (eta : list R) (kts : R) :
  kick_amplitude [a] eta kts
  = kick_amplitude (repeat a (length eta)) eta kts.
Proof.
  unfold kick_amplitude.
  destruct (np_sqrt (map (fun e => kts * e) eta)) as [r| | |] eqn:Hr;
    simpl; auto.
  destruct (np_sqrt_Ok _ _ Hr) as [Hl _]. rewrite length_map in Hl.
  rewrite <- Hl.
  rewrite (broadcast_same Rmult (repeat a (length r)) r)
    by apply repeat_length.
  rewrite map2_repeat. unfold broadcast.
  destruct r as [|y [|y' r]]; reflexivity.
Qed.

(** X6.  An [ampl] with a single entry is broadcast over the modes:
    the run is the one with that amplitude repeated for every entry of
    [eta], whatever the other inputs. *)
Theorem single_amplitude_broadcast (fuel : nat) (g : G)
  (time freq eta : list R) (a : R) :
  solarosc G gauss unif fuel g time freq [a] eta
  = solarosc G gauss unif fuel g time freq (repeat a (length eta)) eta.
Proof.
  unfold solarosc, run_upto, setup.
  destruct (kicktimestep eta) as [kts| | |]; simpl; auto.
  now rewrite kick_amplitude_single.
Qed.

End Rejections.


Lemma amplitude_shape_error_witness :
  solarosc nat demo_gauss demo_unif 100 0%nat [0; 10] [23; 24] [1; 2; 3] [1; 3]
  = Raise ValueError.
Proof.
  apply (amplitude_shape_error nat demo_gauss demo_unif).
  - discriminate.
  - repeat constructor; lra.
  - simpl. lia.
  - simpl. lia.
  - simpl. lia.
Defined.


(** ** Zero amplitudes and the size of a sample *)



Section Sizes.

Variable G : Type.
Variable gauss : G -> R * G.
Variable unif : G -> R * G.
Hypothesis Hunif : forall g, 0 <= fst (unif g) < 1.


(** X8.  On a well-shaped input, with fuel for [kick_budget] kicks per
    loop, the sampling step never amplifies: in the state in which it
    finds mode [i] at output index [j] the factor
    [exp(-eta[i] * (time[j] - last_kicktime[i]))] lies in [(0, 1]], and
    the contribution of the mode to [signal[j]] is at most
    [|amplsin[i]| + |amplcos[i]|] in absolute value. *)
Theorem sampling_never_amplifies (fuel : nat) (g : G)
  (time freq ampl eta : list R) (kts : R) (j i : nat) (st : state G) :
  well_shaped time freq ampl eta -> kicktimestep eta = Ok kts ->
  (kick_budget time kts <= fuel)%nat ->
  (j < length time)%nat -> (i < length freq)%nat ->
  before_sample G gauss unif fuel g time freq ampl eta j i = Ok st ->
  0 < exp (- nth i eta 0 * (nth j time 0 - nth i (last_kicktime st) 0)) <= 1 /\
  Rabs (mode_term time freq eta st j i)
  <= Rabs (nth i (entries (amplsin st)) 0)
     + Rabs (nth i (entries (amplcos st)) 0).
Proof.
  intros Hv Hkts Hfuel Hj Hi H.
  pose proof Hv as (Hne & Hnd & Hene & Hpos & Hf & Ha).
  unfold before_sample in H.
  destruct (setup G gauss unif g time freq ampl eta) as [[[kts' ka] st0]| | |]
    eqn:Hsetup; simpl in H; try discriminate.
  destruct (setup_Ok_inv G gauss unif g time freq ampl eta kts' ka st0
              Hv Hsetup) as (Hkts' & _).
  assert (Hsame : kts' = kts) by congruence. rewrite Hsame in *. clear Hsame.
  destruct (run_facts G gauss unif Hunif g time freq ampl eta kts ka st0 fuel
              Hv Hsetup Hfuel) as [_ Hpre].
  destruct (Hpre j i Hj Hi) as (st' & Hrun & _ & Hinv).
  assert (st' = st) by congruence. subst st'.
  destruct Hinv as (lk & nk & Hlk & Hnk & Hord & _).
  rewrite (nth_error_nth _ _ 0 Hlk).
  assert (He : 0 < nth i eta 0).
  { rewrite Forall_forall in Hpos. apply Hpos, nth_In. lia. }
  set (d := exp (- nth i eta 0 * (nth j time 0 - lk))).
  assert (Hd : 0 < d <= 1).
  { split; [apply exp_pos|]. unfold d.
    destruct (Req_dec (nth j time 0) lk) as [->|Hneq].
    - replace (- nth i eta 0 * (lk - lk)) with 0 by ring. rewrite exp_0. lra.
    - left. rewrite <- exp_0. apply exp_increasing. nra. }
  split; [exact Hd|].
  unfold mode_term. rewrite (nth_error_nth _ _ 0 Hlk). fold d.
  rewrite Rabs_mult, (Rabs_right d) by lra.
  set (a := nth i (entries (amplsin st)) 0).
  set (b := nth i (entries (amplcos st)) 0).
  set (x := 2 * PI * nth i freq 0 * nth j time 0).
  assert (Hs : Rabs (a * sin x) <= Rabs a).
  { rewrite Rabs_mult. pose proof (Rabs_pos a).
    assert (Rabs (sin x) <= 1) by (apply Rabs_le, SIN_bound). nra. }
  assert (Hc : Rabs (b * cos x) <= Rabs b).
  { rewrite Rabs_mult. pose proof (Rabs_pos b).
    assert (Rabs (cos x) <= 1) by (apply Rabs_le, COS_bound). nra. }
  pose proof (Rabs_triang (a * sin x) (b * cos x)) as Ht.
  pose proof (Rabs_pos (a * sin x + b * cos x)). nra.
Qed.

End Sizes.

(** ** Loops, pieces of loops and what they preserve *)

Section LoopTools.

Variable G : Type.

Lemma for_range_app (body : nat -> state G -> outcome (state G)) (a b : nat) :
  forall start st,
    for_range G body start (a + b) st
    = s <- for_range G body start a st ;; for_range G body (start + a) b s.
Proof.
  induction a as [|a IH]; intros start st.
  - simpl. now rewrite Nat.add_0_r.
  - simpl. destruct (body start st) as [s| | |]; simpl; auto.
    rewrite IH. now rewrite Nat.add_succ_r.
Qed.

(** A property kept by every iteration that returns is kept by the
    loop. *)
Lemma for_range_keeps (body : nat -> state G -> outcome (state G))
  (P : state G -> Prop) (m : nat) :
  forall start st st',
    (forall k s s', (start <= k < start + m)%nat ->
                    body k s = Ok s' -> P s -> P s') ->
    for_range G body start m st = Ok st' -> P st -> P st'.
Proof.
  induction m as [|m IH]; intros start st st' Hb H HP; simpl in H.
  - now injection H as <-.
  - apply bind_Ok_inv in H. destruct H as (s1 & H1 & H2).
    apply (IH (S start) s1 st'); auto.
    + intros k s s' Hk. apply Hb. lia.
    + apply (Hb start st s1); auto. lia.
Qed.

(** A loop whose iterations commute with a map of the state commutes
    with it. *)
Lemma for_range_maps (T : state G -> state G)
  (body body' : nat -> state G -> outcome (state G)) (m : nat) :
  forall start st,
    (forall k s, (start <= k < start + m)%nat ->
                 body' k (T s) = s' <- body k s ;; Ok (T s')) ->
    for_range G body' start m (T st)
    = s <- for_range G body start m st ;; Ok (T s).
Proof.
  induction m as [|m IH]; intros start st Hb; simpl; auto.
  rewrite Hb by lia. destruct (body start st) as [s1| | |]; simpl; auto.
  apply IH. intros k s Hk. apply Hb. lia.
Qed.

End LoopTools.

(** ** A prefix of the output times *)

Lemma getitem_firstn (n j : nat) (l : list R) :
  (j < n)%nat -> getitem (firstn n l) j = getitem l j.
Proof.
  intro H. unfold getitem. rewrite nth_error_firstn.
  apply Nat.ltb_lt in H. now rewrite H.
Qed.

Lemma list_set_firstn (n j : nat) (v : R) (l : list R) :
  firstn n (list_set l j v) = list_set (firstn n l) j v.
Proof.
  revert n j; induction l as [|h t IH]; intros [|n] [|j]; simpl; auto.
  now rewrite IH.
Qed.

Lemma list_set_beyond (l : list R) (j : nat) (v : R) :
  (length l <= j)%nat -> list_set l j v = l.
Proof.
  revert j; induction l as [|h t IH]; intros [|j] H; simpl in *; auto;
    try lia.
  rewrite IH; auto. lia.
Qed.

Lemma setitem_firstn (n j : nat) (v : R) (l : list R) :
  (j < n)%nat ->
  setitem (firstn n l) j v = l' <- setitem l j v ;; Ok (firstn n l').
Proof.
  intro H. unfold setitem. rewrite length_firstn.
  destruct (j <? length l)%nat eqn:E.
  - apply Nat.ltb_lt in E.
    assert (E' : (j <? Nat.min n (length l))%nat = true)
      by (apply Nat.ltb_lt; lia).
    rewrite E'. simpl. now rewrite list_set_firstn.
  - apply Nat.ltb_ge in E.
    assert (E' : (j <? Nat.min n (length l))%nat = false)
      by (apply Nat.ltb_ge; lia).
    now rewrite E'.
Qed.

Lemma firstn_zeros (n m : nat) :
  firstn n (repeat 0 m) = repeat 0 (Nat.min n m).
Proof.
  revert m; induction n as [|n IH]; intros [|m]; simpl; auto.
  now rewrite IH.
Qed.

Section Prefix.

Variable G : Type.
Variable gauss : G -> R * G.
Variable unif : G -> R * G.
Variables time freq eta ka : list R.
Variable kts : R.

Lemma set_signal_same (st : state G) : set_signal (signal st) st = st.
Proof.
  now destruct st.
Qed.

Lemma kick_loop_signal (fuel j i : nat) (st s : state G) :
  kick_loop G gauss time eta ka kts fuel j i st = Ok s ->
  signal s = signal st.
Proof.
  intro H.
  pose proof (kick_loop_set_signal G gauss time eta ka kts (signal st)
                j i fuel st) as Hc.
  rewrite set_signal_same, H in Hc. simpl in Hc. injection Hc as ->.
  reflexivity.
Qed.

Lemma kick_loop_time_ext (time' : list R) (j i : nat) :
  getitem time' j = getitem time j ->
  forall fuel st,
    kick_loop G gauss time' eta ka kts fuel j i st
    = kick_loop G gauss time eta ka kts fuel j i st.
Proof.
  intro Ht. induction fuel as [|fuel IH]; intro st; simpl; rewrite Ht.
  - reflexivity.
  - destruct (getitem (next_kicktime st) i); simpl; auto.
    destruct (getitem time j); simpl; auto.
    destruct (Rle_dec a a0); auto.
    destruct (kick G gauss eta ka kts i st); simpl; auto.
Qed.

Lemma kick_loop_truncate (n fuel j i : nat) (st : state G) :
  (j < n)%nat ->
  kick_loop G gauss (firstn n time) eta ka kts fuel j i (truncate n st)
  = s <- kick_loop G gauss time eta ka kts fuel j i st ;; Ok (truncate n s).
Proof.
  intro Hj. rewrite (kick_loop_time_ext (firstn n time) j i
                       (getitem_firstn n j time Hj)).
  unfold truncate at 1. rewrite kick_loop_set_signal.
  destruct (kick_loop G gauss time eta ka kts fuel j i st) as [s| | |] eqn:H;
    simpl; auto.
  unfold truncate. now rewrite (kick_loop_signal fuel j i st s H).
Qed.

Lemma sample_truncate (n j i : nat) (st : state G) :
  (j < n)%nat ->
  sample G (firstn n time) freq eta j i (truncate n st)
  = s <- sample G time freq eta j i st ;; Ok (truncate n s).
Proof.
  intro Hj. unfold sample, truncate, set_signal.
  cbn [next_kicktime last_kicktime amplsin amplcos gen signal].
  rewrite !(getitem_firstn n j time Hj).
  destruct (getitem time j) as [tj| | |]; cbn [bind]; auto.
  destruct (getitem (last_kicktime st) i) as [lk| | |]; cbn [bind]; auto.
  destruct (getitem eta i) as [e| | |]; cbn [bind]; auto.
  rewrite (getitem_firstn n j (signal st) Hj).
  destruct (getitem (signal st) j) as [sj| | |]; cbn [bind]; auto.
  destruct (py_getitem (amplsin st) i) as [s| | |]; cbn [bind]; auto.
  destruct (getitem freq i) as [f| | |]; cbn [bind]; auto.
  destruct (py_getitem (amplcos st) i) as [cc| | |]; cbn [bind]; auto.
  rewrite (setitem_firstn n j _ (signal st) Hj).
  destruct (setitem (signal st) j _) as [sig| | |]; cbn [bind]; auto.
Qed.

Lemma main_pass_truncate (n fuel m : nat) (st : state G) :
  (m <= n)%nat ->
  main_pass G gauss (firstn n time) freq eta ka kts fuel m (truncate n st)
  = s <- main_pass G gauss time freq eta ka kts fuel m st ;;
    Ok (truncate n s).
Proof.
  intro Hm. unfold main_pass. apply for_range_maps. intros j s Hj.
  unfold time_step. apply for_range_maps. intros i s1 _.
  unfold mode_step. rewrite kick_loop_truncate by lia.
  destruct (kick_loop G gauss time eta ka kts fuel j i s1); simpl; auto.
  apply sample_truncate. lia.
Qed.

Lemma sample_signal (j i : nat) (st st' : state G) :
  sample G time freq eta j i st = Ok st' ->
  exists v,
    st' = mkState (amplsin st) (amplcos st) (last_kicktime st)
            (next_kicktime st) (list_set (signal st) j v) (gen st).
Proof.
  intro H. unfold sample in H. bind_inv H. injection H as <-.
  match goal with
  | Hs : setitem _ _ ?v = Ok _ |- _ =>
      exists v; unfold setitem in Hs;
      destruct (j <? length (signal st))%nat; [|discriminate];
      now injection Hs as <-
  end.
Qed.

(** Output times from [n] on leave the first [n] samples alone. *)
Lemma later_steps_keep_prefix (n fuel start m : nat) (st st' : state G) :
  (n <= start)%nat ->
  for_range G (time_step G gauss time freq eta ka kts fuel) start m st
  = Ok st' ->
  firstn n (signal st') = firstn n (signal st).
Proof.
  intros Hn H.
  refine (for_range_keeps G _
            (fun s => firstn n (signal s) = firstn n (signal st))
            m start st st' _ H eq_refl).
  intros j s s' Hj Hstep HP. rewrite <- HP. clear HP.
  unfold time_step in Hstep.
  refine (for_range_keeps G _
            (fun x => firstn n (signal x) = firstn n (signal s))
            (length freq) 0 s s' _ Hstep eq_refl).
  intros i s1 s2 _ Hmode HP. rewrite <- HP. clear HP.
  unfold mode_step in Hmode.
  apply bind_Ok_inv in Hmode. destruct Hmode as (s3 & Hloop & Hsamp).
  apply kick_loop_signal in Hloop.
  apply sample_signal in Hsamp. destruct Hsamp as (v & ->). simpl.
  rewrite list_set_firstn, list_set_beyond, Hloop; auto.
  rewrite length_firstn. lia.
Qed.

End Prefix.

Section PrefixRun.

Variable G : Type.
Variable gauss : G -> R * G.
Variable unif : G -> R * G.

Lemma init_state_truncate (n : nat) (time freq : list R) (kts : R)
  (asin acos : pyval) (g : G) :
  (1 <= n <= length time)%nat ->
  init_state G unif (firstn n time) freq kts asin acos g
  = st <- init_state G unif time freq kts asin acos g ;; Ok (truncate n st).
Proof.
  intro Hn. unfold init_state.
  rewrite (getitem_firstn n 0 time) by lia.
  destruct (getitem time 0) as [t0| | |]; simpl; auto.
  destruct (uniform G unif (t0 - kts) t0 (length freq) g) as [last g'].
  simpl. unfold truncate, set_signal. simpl.
  rewrite firstn_zeros, length_firstn. reflexivity.
Qed.

(** X9.  Cutting the output times to their first [n] cuts the signal to
    its first [n] samples: with the other inputs, the fuel and the
    generator state unchanged, the run on [time[:n]] returns [s[:n]]
    whenever the run on [time] returns [s].  Later output times never
    influence earlier samples. *)
Theorem prefix_of_times (n fuel : nat) (g : G)
  (time freq ampl eta s : list R) :
  (1 <= n <= length time)%nat ->
  solarosc G gauss unif fuel g time freq ampl eta = Ok s ->
  solarosc G gauss unif fuel g (firstn n time) freq ampl eta
  = Ok (firstn n s).
Proof.
  intros Hn H. unfold solarosc, run_upto, setup in *.
  destruct (kicktimestep eta) as [kts| | |]; simpl in *; try discriminate.
  destruct (kick_amplitude ampl eta kts) as [ka| | |]; simpl in *;
    try discriminate.
  destruct (warmup G gauss (length freq) eta ka kts g)
    as [[[asin acos] g1]| | |]; simpl in *; try discriminate.
  rewrite (init_state_truncate n time freq kts asin acos g1 Hn).
  destruct (init_state G unif time freq kts asin acos g1) as [st0| | |];
    simpl in *; try discriminate.
  rewrite length_firstn.
  replace (Nat.min n (length time)) with n by lia.
  rewrite (main_pass_truncate G gauss time freq eta ka kts n fuel n st0)
    by lia.
  apply bind_Ok_inv in H. destruct H as (stN & Hrun & Hs).
  injection Hs as <-. unfold main_pass in Hrun.
  replace (length time) with (n + (length time - n))%nat in Hrun by lia.
  rewrite for_range_app in Hrun.
  apply bind_Ok_inv in Hrun. destruct Hrun as (stn & Hn1 & Hn2).
  unfold main_pass. rewrite Hn1. simpl.
  now rewrite (later_steps_keep_prefix G gauss time freq eta ka kts
                 n fuel _ _ stn stN (Nat.le_add_l _ _) Hn2).
Qed.

End PrefixRun.

(** ** What a run keeps of each mode *)

Section Keeps.

Variable G : Type.
Variable gauss : G -> R * G.
Variables time freq eta ka : list R.
Variable kts : R.
Variables M N : nat.
Hypothesis Hfreq : length freq = M.
Hypothesis Heta : length eta = M.
Hypothesis Hka : length ka = M.
Hypothesis Htime : length time = N.

Variable P : state G -> Prop.

Lemma kick_loop_keeps (j i : nat) :
  (i < M)%nat ->
  (forall s, wf_state M N s -> P s -> P (kicked gauss eta ka kts i s)) ->
  forall fuel st st',
    kick_loop G gauss time eta ka kts fuel j i st = Ok st' ->
    wf_state M N st -> P st -> wf_state M N st' /\ P st'.
Proof.
  intros Hi Hk. induction fuel as [|fuel IH]; intros st st' H Hwf HP.
  - simpl in H.
    destruct (getitem (next_kicktime st) i); simpl in H; try discriminate.
    destruct (getitem time j); simpl in H; try discriminate.
    destruct (Rle_dec a a0); [discriminate|]. injection H as <-. now split.
  - simpl in H.
    destruct (getitem (next_kicktime st) i); simpl in H; try discriminate.
    destruct (getitem time j); simpl in H; try discriminate.
    destruct (Rle_dec a a0).
    + rewrite (kick_kicked G gauss eta ka kts M N Heta Hka i st Hwf Hi) in H.
      simpl in H. apply (IH _ _ H).
      * now apply kicked_wf.
      * now apply Hk.
    + injection H as <-. now split.
Qed.

Lemma mode_step_keeps (fuel j i : nat) (st st' : state G) :
  (i < M)%nat -> (j < N)%nat ->
  (forall s, wf_state M N s -> P s -> P (kicked gauss eta ka kts i s)) ->
  (forall s, wf_state M N s -> P s -> P (sampled time freq eta j i s)) ->
  mode_step G gauss time freq eta ka kts fuel j i st = Ok st' ->
  wf_state M N st -> P st -> wf_state M N st' /\ P st'.
Proof.
  intros Hi Hj Hk Hs H Hwf HP. unfold mode_step in H.
  apply bind_Ok_inv in H. destruct H as (s1 & Hloop & Hsamp).
  destruct (kick_loop_keeps j i Hi Hk fuel st s1 Hloop Hwf HP) as [Hwf1 HP1].
  rewrite (sample_sampled G time freq eta M N Hfreq Heta Htime j i s1
             Hwf1 Hi Hj) in Hsamp.
  injection Hsamp as <-. split; [now apply sampled_wf|now apply Hs].
Qed.

Lemma time_step_keeps (fuel j : nat) (st st' : state G) :
  (j < N)%nat ->
  (forall i s, (i < M)%nat -> wf_state M N s -> P s ->
               P (kicked gauss eta ka kts i s)) ->
  (forall i s, (i < M)%nat -> wf_state M N s -> P s ->
               P (sampled time freq eta j i s)) ->
  time_step G gauss time freq eta ka kts fuel j st = Ok st' ->
  wf_state M N st -> P st -> wf_state M N st' /\ P st'.
Proof.
  intros Hj Hk Hs H Hwf HP. unfold time_step in H. rewrite Hfreq in H.
  refine (for_range_keeps G _ (fun s => wf_state M N s /\ P s)
            M 0 st st' _ H (conj Hwf HP)).
  intros i s s' Hi Hstep [Hwfs HPs].
  assert (Hi' : (i < M)%nat) by lia.
  exact (mode_step_keeps fuel j i s s' Hi' Hj
           (fun s0 => Hk i s0 Hi') (fun s0 => Hs i s0 Hi') Hstep Hwfs HPs).
Qed.

Lemma main_pass_keeps (fuel n : nat) (st st' : state G) :
  (n <= N)%nat ->
  (forall i s, (i < M)%nat -> wf_state M N s -> P s ->
               P (kicked gauss eta ka kts i s)) ->
  (forall j i s, (j < N)%nat -> (i < M)%nat -> wf_state M N s -> P s ->
                 P (sampled time freq eta j i s)) ->
  main_pass G gauss time freq eta ka kts fuel n st = Ok st' ->
  wf_state M N st -> P st -> wf_state M N st' /\ P st'.
Proof.
  intros Hn Hk Hs H Hwf HP. unfold main_pass in H.
  refine (for_range_keeps G _ (fun s => wf_state M N s /\ P s)
            n 0 st st' _ H (conj Hwf HP)).
  intros j s s' Hj Hstep [Hwfs HPs].
  assert (Hj' : (j < N)%nat) by lia.
  exact (time_step_keeps fuel j s s' Hj' Hk
           (fun i s0 => Hs j i s0 Hj') Hstep Hwfs HPs).
Qed.

End Keeps.



Section Modes.

Variable G : Type.
Variable gauss : G -> R * G.
Variable unif : G -> R * G.
Hypothesis Hunif : forall g, 0 <= fst (unif g) < 1.

Lemma kicks_on_grid (fuel : nat) (g : G)
  (time freq ampl eta : list R) (kts : R) (ka : list R) (st0 : state G)
  (j i : nat) :
  well_shaped time freq ampl eta ->
  setup G gauss unif g time freq ampl eta = Ok (kts, ka, st0) ->
  (kick_budget time kts <= fuel)%nat ->
  (j < length time)%nat -> (i < length freq)%nat ->
  exists st,
    run_upto G gauss unif fuel g time freq ampl eta (S j) = Ok st /\
    nth i (last_kicktime st) 0
    = nth i (last_kicktime st0) 0
      + IZR (Zfloor ((nth j time 0 - nth i (last_kicktime st0) 0) / kts))
        * kts /\
    nth i (next_kicktime st) 0 = nth i (last_kicktime st) 0 + kts.
Proof.
  intros Hv Hsetup Hfuel Hj Hi.
  destruct (setup_Ok_inv G gauss unif g time freq ampl eta kts ka st0
              Hv Hsetup) as (Hkts & Hka & Hnn).
  destruct (setup_ok G gauss unif Hunif g time freq ampl eta kts ka
              Hv Hkts Hka Hnn)
    as (Hk0 & Hkl & st0' & Hsetup' & Hwf & Hc & _).
  assert (st0' = st0) by congruence. subst st0'.
  destruct (run_facts G gauss unif Hunif g time freq ampl eta kts ka st0 fuel
              Hv Hsetup Hfuel) as [Hmain _].
  destruct (Hmain (S j) ltac:(lia)) as (st & Hrun & Hwfs & Hcs & Hup & _).
  pose proof Hv as (_ & _ & _ & _ & Hf & _).
  set (grid := fun s : state G =>
         forall k, (k < length freq)%nat ->
           nth k (next_kicktime s) 0 = nth k (last_kicktime s) 0 + kts /\
           exists m : nat,
             nth k (last_kicktime s) 0
             = nth k (last_kicktime st0) 0 + INR m * kts).
  assert (Hgrid : grid st).
  { apply (main_pass_keeps G gauss time freq eta ka kts
             (length freq) (length time) eq_refl (eq_sym Hf) Hkl eq_refl
             grid fuel (S j) st0 st ltac:(lia)); auto.
    - intros k s Hk (a & b & _ & _ & _ & _ & Hl & Hn & _) Hg k' Hk'.
      destruct (Hg k' Hk') as (Hrel & m & Hm). unfold kicked. simpl.
      destruct (Nat.eq_dec k k') as [->|Hne].
      + rewrite !nth_list_set_eq by lia. split; [reflexivity|].
        exists (S m). rewrite S_INR. lra.
      + rewrite !nth_list_set_ne by auto. split; [exact Hrel|now exists m].
    - intros k Hk. destruct (Hc k Hk) as (Hrel & _). split; [exact Hrel|].
      exists 0%nat. simpl. ring. }
  exists st. split; [unfold run_upto; rewrite Hsetup; exact Hrun|].
  destruct (Hgrid i Hi) as (Hrel & m & Hm).
  simpl in Hcs, Hup. destruct (Hcs i Hi) as (_ & _ & Hlast).
  specialize (Hup ltac:(lia) i Hi).
  split; [|exact Hrel].
  rewrite Hm. do 2 f_equal. rewrite INR_IZR_INZ. f_equal. symmetry.
  apply Zfloor_eq. rewrite <- INR_IZR_INZ.
  set (l0 := nth i (last_kicktime st0) 0) in *.
  set (t := nth j time 0) in *.
  assert (Hq : (t - l0) / kts = INR m + (t - nth i (last_kicktime st) 0) / kts).
  { rewrite Hm. field. lra. }
  assert (H0 : 0 <= (t - nth i (last_kicktime st) 0) / kts).
  { apply Rmult_le_pos; [lra|]. left. now apply Rinv_0_lt_compat. }
  assert (H1 : (t - nth i (last_kicktime st) 0) / kts < 1).
  { apply (Rmult_lt_reg_r kts); [exact Hk0|]. unfold Rdiv.
    rewrite Rmult_assoc, Rinv_l by lra. lra. }
  lra.
Qed.






End Modes.

(** ** Concrete runs, continued *)

Lemma demo_kicktimestep : kicktimestep [1] = Ok (1 / 1 / 100).
Proof.
  apply kicktimestep_eq; [reflexivity|lra].
Qed.


Lemma sampling_never_amplifies_witness :
  exists st,
    before_sample nat demo_gauss demo_unif (kick_budget [0; 10] (1 / 1 / 100))
      0%nat [0; 10] [23] [100] [1] 1 0 = Ok st /\
    0 < exp (- nth 0 [1] 0 * (nth 1 [0; 10] 0 - nth 0 (last_kicktime st) 0))
      <= 1 /\
    Rabs (mode_term [0; 10] [23] [1] st 1 0)
    <= Rabs (nth 0 (entries (amplsin st)) 0)
       + Rabs (nth 0 (entries (amplcos st)) 0).
Proof.
  assert (Hv : well_shaped [0; 10] [23] [100] [1]) by demo_shape.
  destruct (reaches_main_pass nat demo_gauss demo_unif demo_unif_range 0%nat
              [0; 10] [23] [100] [1] (1 / 1 / 100) Hv demo_kicktimestep
              ltac:(repeat constructor; lra)) as (ka & st0 & Hsetup).
  destruct (run_facts nat demo_gauss demo_unif demo_unif_range 0%nat
              [0; 10] [23] [100] [1] (1 / 1 / 100) ka st0
              (kick_budget [0; 10] (1 / 1 / 100)) Hv Hsetup (le_n _))
    as [_ Hpre].
  destruct (Hpre 1%nat 0%nat ltac:(simpl; lia) ltac:(simpl; lia))
    as (st & Hst & _).
  assert (Hb : before_sample nat demo_gauss demo_unif
                 (kick_budget [0; 10] (1 / 1 / 100))
                 0%nat [0; 10] [23] [100] [1] 1 0 = Ok st).
  { unfold before_sample. rewrite Hsetup. exact Hst. }
  exists st. split; [exact Hb|].
  apply (sampling_never_amplifies nat demo_gauss demo_unif demo_unif_range
           (kick_budget [0; 10] (1 / 1 / 100)) 0%nat
           [0; 10] [23] [100] [1] (1 / 1 / 100) 1 0 st Hv demo_kicktimestep
           (le_n _) ltac:(simpl; lia) ltac:(simpl; lia) Hb).
Defined.

Lemma prefix_of_times_witness :
  exists s,
    solarosc nat demo_gauss demo_unif (kick_budget [0; 10] (1 / 1 / 100))
      0%nat [0; 10] [23] [100] [1] = Ok s /\
    solarosc nat demo_gauss demo_unif (kick_budget [0; 10] (1 / 1 / 100))
      0%nat (firstn 1 [0; 10]) [23] [100] [1] = Ok (firstn 1 s).
Proof.
  destruct (shaped_run nat demo_gauss demo_unif demo_unif_range 0%nat
              [0; 10] [23] [100] [1] ltac:(demo_shape))
    as (kts & n & o & Hkts & _ & _ & _ & Hrun & _ & Hok).
  assert (Hk : kts = 1 / 1 / 100)
    by (rewrite demo_kicktimestep in Hkts; congruence).
  subst kts. specialize (Hrun _ (le_n _)).
  destruct (Hok ltac:(repeat constructor; lra)) as (s & -> & _).
  exists s. split; [exact Hrun|].
  apply (prefix_of_times nat demo_gauss demo_unif 1
           (kick_budget [0; 10] (1 / 1 / 100)) 0%nat
           [0; 10] [23] [100] [1] s ltac:(simpl; lia) Hrun).
Defined.



(** * The demonstration driver [mainx] *)

Lemma linspace_length (a b : R) (n : nat) : length (linspace a b n) = n.
Proof.
  unfold linspace. now rewrite length_map, length_seq.
Qed.

Lemma linspace_nth_error (a b : R) (n k : nat) (x : R) :
  nth_error (linspace a b n) k = Some x ->
  x = a + INR k * ((b - a) / INR (n - 1)).
Proof.
  unfold linspace. rewrite nth_error_map, nth_error_seq.
  destruct (k <? n)%nat; simpl; [|discriminate].
  intro H. now injection H as <-.
Qed.

Lemma linspace_nth (a b : R) (n k : nat) :
  (k < n)%nat ->
  nth k (linspace a b n) 0 = a + INR k * ((b - a) / INR (n - 1)).
Proof.
  intro Hk.
  destruct (nth_error (linspace a b n) k) as [x|] eqn:E.
  - rewrite (nth_error_nth _ _ 0 E). now apply linspace_nth_error.
  - apply nth_error_None in E. rewrite linspace_length in E. lia.
Qed.

Lemma linspace_nondecreasing (a b : R) (n : nat) :
  a <= b -> nondecreasing (linspace a b n).
Proof.
  intros Hab j x y Hx Hy.
  apply linspace_nth_error in Hx, Hy. subst x y. rewrite S_INR.
  assert (Hinv : 0 <= / INR (n - 1)).
  { destruct (n - 1)%nat as [|m] eqn:E.
    - simpl. rewrite Rinv_0. lra.
    - left. apply Rinv_0_lt_compat, lt_0_INR. lia. }
  assert (Hstep : 0 <= (b - a) / INR (n - 1)).
  { apply Rmult_le_pos; [lra|exact Hinv]. }
  lra.
Qed.

Lemma mainx_shape : well_shaped mainx_time mainx_freq mainx_ampl mainx_eta.
Proof.
  unfold well_shaped. conj.
  - intro H. apply (f_equal (@length R)) in H.
    unfold mainx_time in H. rewrite linspace_length in H. discriminate.
  - apply linspace_nondecreasing. lra.
  - discriminate.
  - repeat constructor; lra.
  - reflexivity.
  - reflexivity.
Qed.

Lemma mainx_kicktimestep : kicktimestep mainx_eta = Ok (1000000 / 300).
Proof.
  rewrite (kicktimestep_eq mainx_eta (3 / 1000000)).
  - f_equal. field.
  - unfold mainx_eta, py_max. simpl.
    destruct (Rlt_dec (1 / 1000000) (3 / 1000000)); [reflexivity|lra].
  - lra.
Qed.

Lemma mainx_Nwarmup : Nwarmup mainx_eta (1000000 / 300) = Ok 300%Z.
Proof.
  rewrite (Nwarmup_eq mainx_eta (1000000 / 300) (1 / 1000000)).
  - unfold spec_Nwarmup.
    replace (1 / (1 / 1000000 * (1000000 / 300))) with 300 by field.
    now rewrite (Zfloor_eq 300 300) by lra.
  - unfold mainx_eta, py_min. simpl.
    destruct (Rlt_dec (3 / 1000000) (1 / 1000000)); [lra|reflexivity].
  - lra.
  - lra.
Qed.

Lemma mainx_times (j : nat) :
  (j < 100)%nat -> 0 <= nth j mainx_time 0 <= 40.
Proof.
  intro Hj. unfold mainx_time. rewrite linspace_nth by exact Hj.
  change (INR (100 - 1)) with (INR 99).
  assert (H99 : INR 99 = 99) by (rewrite INR_IZR_INZ; reflexivity).
  rewrite H99.
  assert (H0 : 0 <= INR j) by apply pos_INR.
  assert (H1 : INR j <= 99).
  { rewrite <- H99. apply le_INR. lia. }
  lra.
Qed.

Lemma mainx_first : nth 0 mainx_time 0 = 0.
Proof.
  unfold mainx_time. rewrite linspace_nth by lia. simpl. lra.
Qed.

Lemma mainx_budget : kick_budget mainx_time (1000000 / 300) = 1%nat.
Proof.
  unfold kick_budget.
  replace (length mainx_time) with 100%nat
    by (unfold mainx_time; now rewrite linspace_length).
  pose proof (mainx_times 99 ltac:(lia)) as Hlast.
  change (100 - 1)%nat with 99%nat.
  rewrite mainx_first.
  rewrite (Zfloor_eq 0); [reflexivity|]. simpl. lra.
Qed.

Section Mainx.

Variable G : Type.
Variable gauss : G -> R * G.
Variable unif : G -> R * G.
Hypothesis Hunif : forall g, 0 <= fst (unif g) < 1.

(** X13.  The demonstration always gets its plot data: whatever the
    random draws, [mainx] simulates with a kick timestep of
    [1000000/300] (the 3333.333333 of the docstring) after 300 warm-up
    kicks and hands 100 values [flux * (1 + oscsignal[j])] to the plot.
    The 40 time units it covers are shorter than one kick timestep, so
    during the main pass each of the two modes is kicked at most once. *)
Theorem mainx_series (fuel : nat) (g : G) :
  (1 <= fuel)%nat ->
  kicktimestep mainx_eta = Ok (1000000 / 300) /\
  Nwarmup mainx_eta (1000000 / 300) = Ok 300%Z /\
  exists ka st0 st,
    setup G gauss unif g mainx_time mainx_freq mainx_ampl mainx_eta
    = Ok (1000000 / 300, ka, st0) /\
    run_upto G gauss unif fuel g mainx_time mainx_freq mainx_ampl mainx_eta
      (length mainx_time) = Ok st /\
    mainx_signal gauss unif fuel g
    = Ok (map (fun x => 1000000 * (1 + x)) (signal st)) /\
    length (map (fun x => 1000000 * (1 + x)) (signal st)) = 100%nat /\
    forall i, (i < length mainx_freq)%nat ->
      nth i (last_kicktime st) 0 = nth i (last_kicktime st0) 0 \/
      nth i (last_kicktime st) 0
      = nth i (last_kicktime st0) 0 + 1000000 / 300.
Proof.
  intro Hfuel.
  split; [exact mainx_kicktimestep|]. split; [exact mainx_Nwarmup|].
  set (kts := 1000000 / 300).
  assert (Hb : (kick_budget mainx_time kts <= fuel)%nat)
    by (unfold kts; rewrite mainx_budget; exact Hfuel).
  assert (Hlen : length mainx_time = 100%nat)
    by (unfold mainx_time; now rewrite linspace_length).
  destruct (reaches_main_pass G gauss unif Hunif g
              mainx_time mainx_freq mainx_ampl mainx_eta kts
              mainx_shape mainx_kicktimestep ltac:(repeat constructor; lra))
    as (ka & st0 & Hsetup).
  destruct (setup_Ok_inv G gauss unif g _ _ _ _ kts ka st0
              mainx_shape Hsetup) as (_ & Hka & Hnn).
  destruct (setup_ok G gauss unif Hunif g _ _ _ _ kts ka
              mainx_shape mainx_kicktimestep Hka Hnn)
    as (_ & _ & st0' & Hsetup' & _ & Hc & _).
  assert (st0' = st0) by congruence. subst st0'.
  destruct (run_facts G gauss unif Hunif g _ _ _ _ kts ka st0 fuel
              mainx_shape Hsetup Hb) as [Hmain _].
  destruct (Hmain (length mainx_time) (le_n _)) as (st & Hrun & Hwf & _).
  assert (Hrun' : run_upto G gauss unif fuel g
                    mainx_time mainx_freq mainx_ampl mainx_eta
                    (length mainx_time) = Ok st)
    by (unfold run_upto; rewrite Hsetup; exact Hrun).
  exists ka, st0, st. conj; auto.
  - unfold mainx_signal, solarosc. now rewrite Hrun'.
  - rewrite length_map.
    destruct Hwf as (a & b & _ & _ & _ & _ & _ & _ & Hs). now rewrite Hs.
  - intros i Hi.
    destruct (kicks_on_grid G gauss unif Hunif fuel g _ _ _ _ kts ka st0 99 i
                mainx_shape Hsetup Hb ltac:(lia) Hi)
      as (st' & Hst' & Hlast & _).
    rewrite Hlen in Hrun'.
    assert (st' = st) by congruence. subst st'.
    destruct (Hc i Hi) as (Hnext & Hlo & Hhi).
    pose proof (mainx_times 99 ltac:(lia)) as Ht.
    rewrite mainx_first in Hlo, Hhi.
    set (l0 := nth i (last_kicktime st0) 0) in *.
    set (t := nth 99 mainx_time 0) in *.
    assert (Hk : kts = 1000000 / 300) by reflexivity.
    destruct (Rle_dec (l0 + kts) t) as [Hle|Hgt].
    + right. rewrite Hlast.
      rewrite (Zfloor_eq 1).
      * simpl. lra.
      * simpl. split.
        -- apply (Rmult_le_reg_r kts); [lra|]. unfold Rdiv.
           rewrite Rmult_assoc, Rinv_l by lra. lra.
        -- apply (Rmult_lt_reg_r kts); [lra|]. unfold Rdiv.
           rewrite Rmult_assoc, Rinv_l by lra. lra.
    + left. rewrite Hlast.
      rewrite (Zfloor_eq 0).
      * simpl. lra.
      * simpl. split.
        -- apply (Rmult_le_reg_r kts); [lra|]. unfold Rdiv.
           rewrite Rmult_assoc, Rinv_l by lra. lra.
        -- apply (Rmult_lt_reg_r kts); [lra|]. unfold Rdiv.
           rewrite Rmult_assoc, Rinv_l by lra. lra.
Qed.

End Mainx.

Lemma mainx_series_witness :
  kicktimestep mainx_eta = Ok (1000000 / 300) /\
  Nwarmup mainx_eta (1000000 / 300) = Ok 300%Z /\
  exists ka st0 st,
    setup nat demo_gauss demo_unif 0%nat
      mainx_time mainx_freq mainx_ampl mainx_eta
    = Ok (1000000 / 300, ka, st0) /\
    run_upto nat demo_gauss demo_unif 1 0%nat
      mainx_time mainx_freq mainx_ampl mainx_eta (length mainx_time)
    = Ok st /\
    mainx_signal demo_gauss demo_unif 1 0%nat
    = Ok (map (fun x => 1000000 * (1 + x)) (signal st)) /\
    length (map (fun x => 1000000 * (1 + x)) (signal st)) = 100%nat /\
    forall i, (i < length mainx_freq)%nat ->
      nth i (last_kicktime st) 0 = nth i (last_kicktime st0) 0 \/
      nth i (last_kicktime st) 0
      = nth i (last_kicktime st0) 0 + 1000000 / 300.
Proof.
  apply (mainx_series nat demo_gauss demo_unif demo_unif_range 1 0%nat).
  apply le_n.
Defined.

(** * Properties of the program on IEEE doubles *)

Module Binary64Facts.
Import PrimFloat FloatOps SpecFloat FloatAxioms Binary64.
Local Open Scope float_scope.

(** ** Lists and indexing *)



Lemma nth_error_set_ne (l : list float) (i k : nat) (v : float) :
  i <> k -> nth_error (list_set l i v) k = nth_error l k.
Proof.
  revert i k; induction l as [|h t IH]; intros [|i] [|k] H; simpl; auto.
  congruence.
Qed.








(** ** Comparisons of doubles *)




(** One over zero is an infinity, and an infinity over anything is an
    infinity or a NaN. *)
Lemma floor_of_zero_rate (m kts : float) :
  is_zero m = true ->
  py_floor (1 / m / kts) = Raise ValueError \/
  py_floor (1 / m / kts) = Raise OverflowError.
Proof.
  unfold is_zero. rewrite eqb_spec. intro Hm. unfold py_floor.
  rewrite !div_spec.
  change (Prim2SF 1) with (S754_finite false 4503599627370496 (-52)).
  change (Prim2SF zero) with (S754_zero false) in Hm.
  destruct (Prim2SF m) as [s|s| |s mm e]; cbv in Hm;
    try discriminate; try (destruct s; discriminate).
  destruct (Prim2SF kts) as [s'|s'| |s' m' e']; simpl; auto.
Qed.

(** ** One kick and the pending-kick loop *)

Section Loop.

Variable G : Type.
Variable gauss : G -> float * G.
Variable fexp : float -> float.
Variables time eta ka : list float.
Variable kts : float.







Lemma clock_after_S (k : nat) (nk : float) :
  clock_after kts (S k) nk = clock_after kts k nk + kts.
Proof.
  revert nk; induction k as [|k IH]; intro nk; [reflexivity|].
  change (clock_after kts (S (S k)) nk) with (clock_after kts (S k) (nk + kts)).
  rewrite IH. reflexivity.
Qed.



End Loop.

(** ** Warm-up *)

Section WarmUp.

Variable G : Type.
Variable gauss : G -> float * G.
Variable fexp : float -> float.

Lemma map2_same_length {A : Type} (f : float -> float -> A)
  (xs ys : list float) :
  length xs = length ys -> length (map2 f xs ys) = length xs.
Proof.
  revert ys; induction xs as [|x xs IH]; intros [|y ys] H; simpl in *;
    try discriminate; auto.
Qed.

Lemma broadcast_equal_lengths {A : Type} (f : float -> float -> A)
  (xs ys : list float) :
  length xs = length ys -> broadcast f xs ys = Ok (map2 f xs ys).
Proof.
  intro H. unfold broadcast. apply Nat.eqb_eq in H. now rewrite H.
Qed.


Lemma normal_vec_of_zeros (ka : list float) (g : G) :
  existsb get_sign ka = false ->
  normal_vec G gauss (repeat 0 (length ka)) ka g
  = Ok (normal_draws G gauss (map2 pair (repeat 0 (length ka)) ka) g).
Proof.
  intro H. unfold normal_vec. rewrite H.
  rewrite broadcast_equal_lengths by apply repeat_length. reflexivity.
Qed.

Lemma spec_kicks_keeps_length (eta ka a : list float) (kts : float) (g : G) :
  length ka = length eta -> length a = length eta ->
  length (fst (spec_kicks G gauss fexp eta ka a kts g)) = length eta.
Proof.
  revert ka a g; induction eta as [|e eta IH]; intros [|k ka] [|x a] g Hk Ha;
    simpl in *; try discriminate; auto.
  destruct (gauss g) as [z g1].
  specialize (IH ka a g1 ltac:(lia) ltac:(lia)).
  destruct (spec_kicks G gauss fexp eta ka a kts g1) as [rest g2].
  simpl in *. lia.
Qed.

(** The array expression of line 111 computes, entry by entry and with
    the same rounded operations, what the elementwise kick does. *)
Lemma array_update_elementwise (eta ka a : list float) (kts : float) (g : G) :
  length ka = length eta -> length a = length eta ->
  (let (n, g') :=
     normal_draws G gauss (map2 pair (repeat 0 (length ka)) ka) g in
   (map2 add (map2 mul (warm_damp fexp eta kts) a) n, g'))
  = spec_kicks G gauss fexp eta ka a kts g.
Proof.
  revert ka a g; induction eta as [|e eta IH]; intros [|k ka] [|x a] g Hk Ha;
    simpl in *; try discriminate; auto.
  destruct (gauss g) as [z g1].
  specialize (IH ka a g1 ltac:(lia) ltac:(lia)).
  destruct (normal_draws G gauss _ g1) as [n g'].
  destruct (spec_kicks G gauss fexp eta ka a kts g1) as [rest g2].
  inversion IH; subst. reflexivity.
Qed.

Lemma normal_draws_keep_length (ps : list (float * float)) (g : G) :
  length (fst (normal_draws G gauss ps g)) = length ps.
Proof.
  revert g; induction ps as [|[m s] ps IH]; intro g; simpl; auto.
  destruct (gauss g) as [z g1]. specialize (IH g1).
  destruct (normal_draws G gauss ps g1). simpl in *. lia.
Qed.

Lemma warm_update_of_array (eta ka a : list float) (kts : float) (g : G) :
  length ka = length eta -> length a = length eta ->
  existsb get_sign ka = false ->
  warm_update G gauss (length eta) (warm_damp fexp eta kts) ka (NdArray a) g
  = Ok (NdArray (fst (spec_kicks G gauss fexp eta ka a kts g)),
        snd (spec_kicks G gauss fexp eta ka a kts g)).
Proof.
  intros Hk Ha Hnn. unfold warm_update. simpl.
  rewrite broadcast_equal_lengths
    by (unfold warm_damp; rewrite length_map; lia).
  simpl. rewrite <- Hk. rewrite (normal_vec_of_zeros ka g Hnn). simpl.
  rewrite <- (array_update_elementwise eta ka a kts g Hk Ha).
  pose proof (normal_draws_keep_length
                (map2 pair (repeat 0 (length ka)) ka) g) as Hl.
  destruct (normal_draws G gauss _ g) as [n g']. simpl in *.
  rewrite broadcast_equal_lengths.
  - reflexivity.
  - rewrite Hl. rewrite !map2_same_length; unfold warm_damp;
      rewrite ?length_map, ?repeat_length; lia.
Qed.

Lemma map_times_zero (damp : list float) :
  map (fun d => d * 0) damp = map2 mul damp (repeat 0 (length damp)).
Proof.
  induction damp as [|d t IH]; simpl; [reflexivity|]. now rewrite IH.
Qed.

Lemma warm_update_of_float (eta ka : list float) (kts : float) (g : G) :
  warm_update G gauss (length eta) (warm_damp fexp eta kts) ka (PyFloat 0) g
  = warm_update G gauss (length eta) (warm_damp fexp eta kts) ka
      (NdArray (repeat 0 (length eta))) g.
Proof.
  unfold warm_update. simpl.
  rewrite broadcast_equal_lengths
    by (unfold warm_damp; rewrite length_map, repeat_length; lia).
  simpl. rewrite map_times_zero. unfold warm_damp. rewrite length_map.
  reflexivity.
Qed.

Lemma spec_warm_iter_keeps_lengths (eta ka : list float) (kts : float) s :
  length ka = length eta -> both_lengths G (length eta) s ->
  both_lengths G (length eta) (spec_warm_iter G gauss fexp eta ka kts s).
Proof.
  destruct s as [[a b] g]. unfold both_lengths. simpl. intros Hk [Ha Hb].
  pose proof (spec_kicks_keeps_length eta ka a kts g Hk Ha) as H1.
  destruct (spec_kicks G gauss fexp eta ka a kts g) as [a' g1].
  pose proof (spec_kicks_keeps_length eta ka b kts g1 Hk Hb) as H2.
  destruct (spec_kicks G gauss fexp eta ka b kts g1) as [b' g2].
  simpl in *. auto.
Qed.

Lemma warm_step_of_arrays (eta ka : list float) (kts : float) s :
  length ka = length eta -> existsb get_sign ka = false ->
  both_lengths G (length eta) s ->
  warm_step G gauss (length eta) (warm_damp fexp eta kts) ka (as_arrays G s)
  = Ok (as_arrays G (spec_warm_iter G gauss fexp eta ka kts s)).
Proof.
  destruct s as [[a b] g]. unfold both_lengths. simpl. intros Hk Hnn [Ha Hb].
  rewrite (warm_update_of_array eta ka a kts g Hk Ha Hnn). simpl.
  destruct (spec_kicks G gauss fexp eta ka a kts g) as [a' g1]. simpl.
  rewrite (warm_update_of_array eta ka b kts g1 Hk Hb Hnn). simpl.
  destruct (spec_kicks G gauss fexp eta ka b kts g1) as [b' g2]. reflexivity.
Qed.

Lemma warm_step_of_floats (eta ka : list float) (kts : float) (g : G) :
  warm_step G gauss (length eta) (warm_damp fexp eta kts) ka
    (PyFloat 0, PyFloat 0, g)
  = warm_step G gauss (length eta) (warm_damp fexp eta kts) ka
      (as_arrays G (repeat 0 (length eta), repeat 0 (length eta), g)).
Proof.
  unfold warm_step, as_arrays.
  rewrite (warm_update_of_float eta ka kts g).
  destruct (warm_update G gauss (length eta) (warm_damp fexp eta kts) ka
              (NdArray (repeat 0 (length eta))) g) as [[a g1]| | |];
    simpl; auto.
  now rewrite (warm_update_of_float eta ka kts g1).
Qed.


Lemma repeat_step_of_arrays (eta ka : list float) (kts : float) (n : nat) s :
  length ka = length eta -> existsb get_sign ka = false ->
  both_lengths G (length eta) s ->
  repeat_step (warm_step G gauss (length eta) (warm_damp fexp eta kts) ka) n
    (as_arrays G s)
  = Ok (as_arrays G (iterate (spec_warm_iter G gauss fexp eta ka kts) n s)).
Proof.
  intros Hk Hnn. revert s; induction n as [|n IH]; intros s Hs; simpl; auto.
  rewrite (warm_step_of_arrays eta ka kts s Hk Hnn Hs). simpl.
  apply IH. now apply spec_warm_iter_keeps_lengths.
Qed.

Lemma zeros_have_length (n : nat) (g : G) :
  both_lengths G n (repeat 0 n, repeat 0 n, g).
Proof.
  split; apply repeat_length.
Qed.

Lemma repeat_step_of_floats (eta ka : list float) (kts : float) (n : nat)
  (g : G) :
  length ka = length eta -> existsb get_sign ka = false -> (1 <= n)%nat ->
  repeat_step (warm_step G gauss (length eta) (warm_damp fexp eta kts) ka) n
    (PyFloat 0, PyFloat 0, g)
  = Ok (as_arrays G (iterate (spec_warm_iter G gauss fexp eta ka kts) n
                       (repeat 0 (length eta), repeat 0 (length eta), g))).
Proof.
  intros Hk Hnn Hn. destruct n as [|n]; [lia|].
  change (repeat_step ?b (S n) ?s) with (s' <- b s ;; repeat_step b n s').
  rewrite (warm_step_of_floats eta ka kts g).
  rewrite <- (repeat_step_of_arrays eta ka kts (S n) _ Hk Hnn
                (zeros_have_length _ g)).
  reflexivity.
Qed.

(** The warm-up count is the floor of the double
    [1.0 / min(eta) / kicktimestep], capped at 20000. *)
Lemma Nwarmup_Ok_inv (eta : list float) (kts : float) (n : Z) :
  Nwarmup eta kts = Ok n ->
  exists m z,
    py_min eta = Ok m /\ py_floor (1 / m / kts) = Ok z /\
    n = Z.min 20000 z /\ (n <= 20000)%Z.
Proof.
  unfold Nwarmup. intro H.
  apply bind_Ok_inv in H. destruct H as (m & Hm & H).
  apply bind_Ok_inv in H. destruct H as (z & Hz & H).
  injection H as <-. exists m, z. conj; auto. lia.
Qed.

(** The warm-up of the code is the warm-up of the specification, run
    [n] times when the warm-up count is [n]. *)
Lemma warmup_runs (eta ka : list float) (kts : float) (n : Z) (g : G) :
  length ka = length eta -> existsb get_sign ka = false ->
  Nwarmup eta kts = Ok n ->
  warmup G gauss fexp (length eta) eta ka kts g
  = Ok (if (1 <=? n)%Z
        then as_arrays G (spec_warmup G gauss fexp eta ka kts n g)
        else (PyFloat 0, PyFloat 0, g)).
Proof.
  intros Hk Hnn Hn. unfold warmup, spec_warmup. rewrite Hn. simpl.
  destruct (1 <=? n)%Z eqn:E.
  - apply Z.leb_le in E. apply repeat_step_of_floats; auto. lia.
  - apply Z.leb_gt in E. replace (Z.to_nat n) with 0%nat by lia. reflexivity.
Qed.




Lemma kick_amplitude_has_length (ampl eta : list float) (kts : float)
  (ka : list float) :
  length ampl = length eta -> kick_amplitude ampl eta kts = Ok ka ->
  length ka = length eta /\
  ka = map2 mul ampl (map (fun e => sqrt (kts * e)) eta).
Proof.
  intros Ha H. unfold kick_amplitude in H.
  rewrite broadcast_equal_lengths in H by now rewrite length_map.
  injection H as <-. split; [|reflexivity].
  rewrite map2_same_length; [exact Ha|]. now rewrite length_map.
Qed.

End WarmUp.

(** ** The kick clocks along the main pass *)

Section Clocks.

Variable G : Type.
Variable gauss : G -> float * G.
Variables fexp fsin fcos : float -> float.
Variables time freq eta ka : list float.
Variable kts : float.
Variable M : nat.












End Clocks.

(** ** Entering the main pass *)

Section Setup.

Variable G : Type.
Variable gauss : G -> float * G.
Variable unif : G -> float * G.
Variable fexp : float -> float.

Lemma uniform_draws_length (low range : float) (n : nat) (g : G) :
  length (fst (uniform_draws G unif low range n g)) = n.
Proof.
  revert g; induction n as [|n IH]; intro g; simpl; auto.
  destruct (unif g) as [u g1]. specialize (IH g1).
  destruct (uniform_draws G unif low range n g1). simpl in *. lia.
Qed.

Lemma setup_returns (g : G) (time freq ampl eta : list float) (kts : float)
  (ka : list float) (st0 : state G) :
  setup G gauss unif fexp g time freq ampl eta = Ok (kts, ka, st0) ->
  kicktimestep eta = Ok kts /\ kick_amplitude ampl eta kts = Ok ka /\
  (exists g1,
     warmup G gauss fexp (length freq) eta ka kts g
     = Ok (amplsin st0, amplcos st0, g1)) /\
  length (last_kicktime st0) = length freq /\
  next_kicktime st0 = map (fun l => l + kts) (last_kicktime st0) /\
  signal st0 = repeat 0 (length time).
Proof.
  unfold setup. intro H.
  apply bind_Ok_inv in H. destruct H as (kts' & Hkts & H).
  apply bind_Ok_inv in H. destruct H as (ka' & Hka & H).
  apply bind_Ok_inv in H. destruct H as ([[asin acos] g1] & Hw & H).
  apply bind_Ok_inv in H. destruct H as (st & Hinit & H).
  injection H as <- <- <-.
  unfold init_state in Hinit.
  apply bind_Ok_inv in Hinit. destruct Hinit as (t0a & _ & Hinit).
  apply bind_Ok_inv in Hinit. destruct Hinit as (t0b & _ & Hinit).
  apply bind_Ok_inv in Hinit. destruct Hinit as ([last g2] & Hu & Hinit).
  injection Hinit as <-. simpl.
  unfold uniform in Hu.
  destruct (is_finite (t0b - (t0a - kts'))); [|discriminate].
  injection Hu as Hu.
  pose proof (uniform_draws_length (t0a - kts') (t0b - (t0a - kts'))
                (length freq) g1) as Hlen.
  rewrite Hu in Hlen. simpl in Hlen.
  conj; auto. now exists g1.
Qed.


End Setup.

(** ** The claims on doubles *)

Section Claims.

Variable G : Type.
Variable gauss : G -> float * G.
Variable unif : G -> float * G.
Variables fexp fsin fcos : float -> float.




(** C7.  When no kick amplitude has its sign bit set, the warm-up of the
    code is the warm-up of the specification run [Nwarmup] times, where
    [Nwarmup] is [min(20000, floor(q))] for the double
    [q = 1.0 / min(eta) / kicktimestep]: from zero quadrature
    components, each iteration replaces every entry [a_i] of [amplsin]
    and then of [amplcos] by [exp(-eta_i * kicktimestep) * a_i] plus a
    Gaussian of mean 0 and standard deviation [kick_amplitude_i]; when
    [Nwarmup] is not positive nothing is done.  The main pass is entered
    with these components and a signal that is still zero. *)
Theorem warmup_refinement_in_doubles (g : G)
  (time freq ampl eta : list float) (kts : float) (ka : list float) (n : Z) :
  length freq = length eta -> length ampl = length eta ->
  kicktimestep eta = Ok kts -> kick_amplitude ampl eta kts = Ok ka ->
  existsb get_sign ka = false ->
  Nwarmup eta kts = Ok n ->
  (exists m z,
     py_min eta = Ok m /\ py_floor (1 / m / kts) = Ok z /\
     n = Z.min 20000 z) /\
  warmup G gauss fexp (length freq) eta ka kts g
  = Ok (if (1 <=? n)%Z
        then as_arrays G (spec_warmup G gauss fexp eta ka kts n g)
        else (PyFloat 0, PyFloat 0, g)) /\
  forall st0,
    setup G gauss unif fexp g time freq ampl eta = Ok (kts, ka, st0) ->
    (amplsin st0, amplcos st0)
    = fst (if (1 <=? n)%Z
           then as_arrays G (spec_warmup G gauss fexp eta ka kts n g)
           else (PyFloat 0, PyFloat 0, g)) /\
    signal st0 = repeat 0 (length time).
Proof.
  clear fsin fcos. intros Hf Ha Hkts Hka Hsign Hn.
  destruct (kick_amplitude_has_length ampl eta kts ka Ha Hka) as [Hkl _].
  pose proof (warmup_runs G gauss fexp eta ka kts n g Hkl Hsign Hn) as Hw.
  rewrite <- Hf in Hw at 1.
  conj.
  - destruct (Nwarmup_Ok_inv eta kts n Hn) as (m & z & H1 & H2 & H3 & _).
    now exists m, z.
  - exact Hw.
  - intros st0 Hsetup.
    destruct (setup_returns G gauss unif fexp g time freq ampl eta kts ka st0
                Hsetup) as (_ & _ & (g1 & Hw') & _ & _ & Hsig).
    rewrite Hw in Hw'. injection Hw' as Hw'. split; [|exact Hsig].
    now rewrite Hw'.
Qed.


Lemma broadcast_outcomes {A : Type} (f : float -> float -> A)
  (xs ys : list float) :
  (exists l, broadcast f xs ys = Ok l) \/
  broadcast f xs ys = Raise ValueError.
Proof.
  clear. unfold broadcast. destruct (length xs =? length ys)%nat; eauto.
  destruct xs as [|x [|x' xs]], ys as [|y [|y' ys]]; eauto.
Qed.

(** X14.  A zero damping rate is not checked for, but it stops the run
    where the warm-up count is taken: when the minimum of [eta] is zero
    the double [1.0 / min(eta) / kicktimestep] is an infinity or a NaN,
    and the run raises [OverflowError] or [ValueError] before any random
    number is drawn (it raises [ValueError] earlier still if [ampl] and
    [eta] do not broadcast). *)
Theorem zero_rate_stops_run (fuel : nat) (g : G)
  (time freq ampl eta : list float) (m : float) :
  py_min eta = Ok m -> is_zero m = true ->
  solarosc G gauss unif fexp fsin fcos fuel g time freq ampl eta
  = Raise ValueError \/
  solarosc G gauss unif fexp fsin fcos fuel g time freq ampl eta
  = Raise OverflowError.
Proof.
  intros Hm Hz. unfold solarosc, run_upto, setup, kicktimestep.
  destruct eta as [|e eta]; [discriminate|]. simpl.
  set (kts := (1 / _ / 100)).
  unfold kick_amplitude.
  destruct (broadcast_outcomes mul ampl
              (map (fun e0 => sqrt (kts * e0)) (e :: eta))) as [[ka ->]| ->];
    simpl; auto.
  unfold warmup, Nwarmup. rewrite Hm. simpl.
  destruct (floor_of_zero_rate m kts Hz) as [-> | ->]; simpl; auto.
Qed.

End Claims.

(** ** Concrete runs on doubles *)







Lemma warmup_refinement_in_doubles_witness :
  (exists m z,
     py_min [1; 3] = Ok m /\ py_floor (1 / m / (1 / 3 / 100)) = Ok z /\
     300%Z = Z.min 20000 z) /\
  warmup nat demo_gauss unit_exp (length [23; 24]) [1; 3]
    (map2 mul [100; 110] (map (fun e => sqrt (1 / 3 / 100 * e)) [1; 3]))
    (1 / 3 / 100) 0%nat
  = Ok (if (1 <=? 300)%Z
        then as_arrays nat
               (spec_warmup nat demo_gauss unit_exp [1; 3]
                  (map2 mul [100; 110]
                     (map (fun e => sqrt (1 / 3 / 100 * e)) [1; 3]))
                  (1 / 3 / 100) 300 0%nat)
        else (PyFloat 0, PyFloat 0, 0%nat)) /\
  forall st0,
    setup nat demo_gauss demo_unif unit_exp 0%nat [0; 10] [23; 24]
      [100; 110] [1; 3]
    = Ok (1 / 3 / 100,
          map2 mul [100; 110] (map (fun e => sqrt (1 / 3 / 100 * e)) [1; 3]),
          st0) ->
    (amplsin st0, amplcos st0)
    = fst (if (1 <=? 300)%Z
           then as_arrays nat
                  (spec_warmup nat demo_gauss unit_exp [1; 3]
                     (map2 mul [100; 110]
                        (map (fun e => sqrt (1 / 3 / 100 * e)) [1; 3]))
                     (1 / 3 / 100) 300 0%nat)
           else (PyFloat 0, PyFloat 0, 0%nat)) /\
    signal st0 = repeat 0 (length [0; 10]).
Proof.
  apply (warmup_refinement_in_doubles nat demo_gauss demo_unif unit_exp
           0%nat [0; 10] [23; 24] [100; 110] [1; 3]); reflexivity.
Defined.

(** For the single damping rate [79.0] the formula
    [min(20000, floor(1 / (min(eta) * kicktimestep)))] gives 100, while
    the warm-up of the code makes 99 iterations: on one mode it draws
    198 normal deviates. *)
Lemma warmup_count_counterexample :
  Z.min 20000 (Zfloor (1 / (79 * (1 / (100 * 79))))%R) = 100%Z /\
  kicktimestep [79] = Ok (1 / 79 / 100) /\
  Nwarmup [79] (1 / 79 / 100) = Ok 99%Z /\
  forall fexp : float -> float,
    exists a b,
      warmup nat demo_gauss fexp 1 [79]
        [100 * sqrt (1 / 79 / 100 * 79)] (1 / 79 / 100) 0%nat
      = Ok (NdArray [a], NdArray [b], 198%nat).
Proof.
  conj; try reflexivity.
  - replace (1 / (79 * (1 / (100 * 79))))%R with 100%R by (field; lra).
    rewrite (Zfloor_eq 100 100); [reflexivity|]. simpl. lra.
  - intro fexp.
    destruct (warmup nat demo_gauss fexp 1 [79]
                [100 * sqrt (1 / 79 / 100 * 79)] (1 / 79 / 100) 0%nat)
      as [[[a b] g]| | |] eqn:E; vm_compute in E; try discriminate.
    injection E as <- <- <-. eexists _, _. reflexivity.
Qed.



Lemma zero_rate_stops_run_witness :
  solarosc nat demo_gauss demo_unif unit_exp zero_sin unit_cos 10 0%nat
    [0; 10] [23] [100] [0]
  = Raise ValueError \/
  solarosc nat demo_gauss demo_unif unit_exp zero_sin unit_cos 10 0%nat
    [0; 10] [23] [100] [0]
  = Raise OverflowError.
Proof.
  apply (zero_rate_stops_run nat demo_gauss demo_unif
           unit_exp zero_sin unit_cos 10 0%nat [0; 10] [23] [100] [0] 0);
    reflexivity.
Defined.


End Binary64Facts.
